(** * The bank servicer of server.py: store, lock registry and the five handlers

    The servicer keeps every account as a Redis hash under the key
    "account:<id>" with the fields account_type and balance, and keeps one
    threading.Lock per account identifier in a dictionary.  Balances and
    amounts are Python floats, that is IEEE 754 binary64 numbers; they are
    modelled by Rocq's primitive floats, which are the same format.

    A handler is embedded as a program over the atomic actions it performs
    on the shared state (one Redis command, one lock operation).  The same
    program is run alone by [run] and interleaved with the programs of other
    calls by [exec]. *)

From Stdlib Require Import ZArith Floats.
From stdpp Require Import base option gmap strings list.

Local Open Scope string_scope.

(** ** Status codes and the per-call context *)

(** The members of grpc.StatusCode that server.py sets. *)
Inductive StatusCode : Set :=
| INVALID_ARGUMENT
| NOT_FOUND
| ALREADY_EXISTS
| FAILED_PRECONDITION.

(** The grpc.ServicerContext of one call, as far as the handlers write it. *)
Record ServicerContext : Type := {
  code : option StatusCode;
  details : option string
}.

(** The context the transport hands to a handler: nothing set. *)
Definition new_context : ServicerContext :=
  {| code := None; details := None |}.

Definition set_code (c : StatusCode) (context : ServicerContext) : ServicerContext :=
  {| code := Some c; details := details context |}.

Definition set_details (d : string) (context : ServicerContext) : ServicerContext :=
  {| code := code context; details := Some d |}.

(** ** Messages of bank_pb2

    Modelled from the spec: bank_pb2, the module generated from the service
    description, is not among the sources.  The fields are those server.py
    and client.py read and write; amounts, rates and balances are decimal
    quantities "represented with at least double-precision floating
    semantics", so a numeric field holds the Python float it is given.  An
    omitted field has the protobuf default: the empty string, 0.0. *)

(** A formatted string: literal text and floats printed with a fixed number
    of decimals ([{x:.2f}]), kept as their arguments. *)
Inductive piece : Type :=
| Str (s : string)
| Fixed (decimals : nat) (x : float).

Definition fstring : Type := list piece.

Module AccountRequest.
Record t : Type := mk { account_id : string; account_type : string }.
End AccountRequest.

Module DepositRequest.
Record t : Type := mk { account_id : string; amount : float }.
End DepositRequest.

Module WithdrawRequest.
Record t : Type := mk { account_id : string; amount : float }.
End WithdrawRequest.

Module InterestRequest.
Record t : Type := mk { account_id : string; annual_interest_rate : float }.
End InterestRequest.

Module AccountResponse.
Record t : Type := mk { account_id : string; message : fstring }.
Definition empty : t := mk EmptyString [].
End AccountResponse.

Module BalanceResponse.
Record t : Type := mk { account_id : string; balance : float; message : fstring }.
Definition empty : t := mk EmptyString 0%float [].
End BalanceResponse.

Module TransactionResponse.
Record t : Type := mk { account_id : string; message : fstring; balance : float }.
Definition empty : t := mk EmptyString [] 0%float.
End TransactionResponse.

(** ** The Redis store *)

(** The hash stored under one key, restricted to the two fields the servicer
    uses.  A field that is absent is [None]; the hash of a key that does not
    exist is the empty hash.  The balance is written as the text of a float
    and read back with float(), which returns the float that was written. *)
Record hash : Type := {
  h_account_type : option string;
  h_balance : option float
}.

Definition empty_hash : hash := {| h_account_type := None; h_balance := None |}.

Definition is_empty_hash (h : hash) : bool :=
  match h_account_type h, h_balance h with
  | None, None => true
  | _, _ => false
  end.

(** A field together with the value written to it. *)
Inductive field_value : Type :=
| account_type_is (s : string)
| balance_is (x : float).

Definition hash_set (fv : field_value) (h : hash) : hash :=
  match fv with
  | account_type_is s => {| h_account_type := Some s; h_balance := h_balance h |}
  | balance_is x => {| h_account_type := h_account_type h; h_balance := Some x |}
  end.

Definition redis_hgetall (key : string) (db : gmap string hash) : hash :=
  default empty_hash (db !! key).

Definition redis_exists (key : string) (db : gmap string hash) : bool :=
  negb (is_empty_hash (redis_hgetall key db)).

(** HSET creates the hash when the key does not exist. *)
Definition redis_hset (key : string) (fv : field_value) (db : gmap string hash)
  : gmap string hash :=
  <[key := hash_set fv (redis_hgetall key db)]> db.

(** HMSET sets the fields of the mapping one after the other. *)
Definition redis_hmset (key : string) (mapping : list field_value)
    (db : gmap string hash) : gmap string hash :=
  <[key := foldl (fun h fv => hash_set fv h) (redis_hgetall key db) mapping]> db.

(** ** The servicer's state *)

(** [account_locks] maps an account identifier to its lock; the lock is
    represented by its state, [true] when some call holds it.  A lock, once in
    the dictionary, is never replaced, so the identifier names it. *)
Record Servicer : Type := {
  redis_client : gmap string hash;
  account_locks : gmap string bool
}.

Abbreviation lock := string.

(** ** Programs over atomic actions *)

Inductive exn : Set :=
| KeyError (field : string).

(** One atomic access to the shared state, indexed by the type of its result. *)
Inductive action : Type -> Type :=
| GetAccountLock (account_id : string) : action lock
| Acquire (l : lock) : action unit
| Release (l : lock) : action unit
| Exists (key : string) : action bool
| Hgetall (key : string) : action hash
| Hmset (key : string) (mapping : list field_value) : action unit
| Hset (key : string) (fv : field_value) : action unit.

Inductive prog (R : Type) : Type :=
| Ret (r : R)
| Raise (e : exn)
| Do {A : Type} (a : action A) (k : A -> prog R).

Arguments Ret {R} r.
Arguments Raise {R} e.
Arguments Do {R A} a k.

Fixpoint bind {A B : Type} (p : prog A) (f : A -> prog B) : prog B :=
  match p with
  | Ret r => f r
  | Raise e => Raise e
  | Do a k => Do a (fun x => bind (k x) f)
  end.

Notation "x <- p ;; q" := (bind p (fun x => q))
  (at level 100, p at next level, right associativity).

Definition do {A : Type} (a : action A) : prog A := Do a Ret.

(** [body] followed by [exit] on every way out, as the end of a with-block. *)
Fixpoint finally {R : Type} (body : prog R) (exit : prog unit) : prog R :=
  match body with
  | Ret r => _ <- exit ;; Ret r
  | Raise e => _ <- exit ;; Raise e
  | Do a k => Do a (fun x => finally (k x) exit)
  end.

(** [with l: body] for a threading.Lock. *)
Definition with_lock {R : Type} (l : lock) (body : prog R) : prog R :=
  _ <- do (Acquire l) ;; finally body (do (Release l)).

(** The effect of one action on the servicer, [None] when the action cannot
    take place in this state: acquiring a lock that is held blocks the
    caller.  (Releasing a lock that is not held, and acquiring one that is
    not in the dictionary, do not occur: a lock is released at the end of the
    with-block that acquired it, and is only obtained from the dictionary.) *)
Definition perform {A : Type} (a : action A) (s : Servicer) : option (A * Servicer) :=
  match a in action T return option (T * Servicer) with
  | GetAccountLock account_id =>
      match account_locks s !! account_id with
      | None =>
          Some (account_id,
                {| redis_client := redis_client s;
                   account_locks := <[account_id := false]> (account_locks s) |})
      | Some _ => Some (account_id, s)
      end
  | Acquire l =>
      match account_locks s !! l with
      | Some false =>
          Some (tt, {| redis_client := redis_client s;
                       account_locks := <[l := true]> (account_locks s) |})
      | _ => None
      end
  | Release l =>
      match account_locks s !! l with
      | Some true =>
          Some (tt, {| redis_client := redis_client s;
                       account_locks := <[l := false]> (account_locks s) |})
      | _ => None
      end
  | Exists key => Some (redis_exists key (redis_client s), s)
  | Hgetall key => Some (redis_hgetall key (redis_client s), s)
  | Hmset key mapping =>
      Some (tt, {| redis_client := redis_hmset key mapping (redis_client s);
                   account_locks := account_locks s |})
  | Hset key fv =>
      Some (tt, {| redis_client := redis_hset key fv (redis_client s);
                   account_locks := account_locks s |})
  end.

(** How a call ends. *)
Inductive outcome (R : Type) : Type :=
| Returned (r : R)
| Raised (e : exn).

Arguments Returned {R} r.
Arguments Raised {R} e.

(** A call run with no other call in progress.  [None]: the call waits for a
    lock that nobody will release. *)
Fixpoint run {R : Type} (p : prog R) (s : Servicer) : option (outcome R * Servicer) :=
  match p with
  | Ret r => Some (Returned r, s)
  | Raise e => Some (Raised e, s)
  | Do a k =>
      match perform a s with
      | Some (x, s') => run (k x) s'
      | None => None
      end
  end.

(** ** BankServiceServicer *)

(** [f"account:{account_id}"] *)
Definition key (account_id : string) : string := "account:" ++ account_id.

(** The lookup, and creation on first use, of the lock of an account; the
    body runs under [lock_dict_lock] and is one atomic action (server.py,
    lines 17-21). *)
Definition get_account_lock (account_id : string) : prog lock :=
  do (GetAccountLock account_id).

Record AccountData : Type := {
  account_id : string;
  account_type : string;
  balance : float
}.

(** server.py, lines 23-31: [None] for the empty hash, a KeyError when a
    field is missing. *)
Definition get_account_data (account_id : string) : prog (option AccountData) :=
  account_data <- do (Hgetall (key account_id)) ;;
  if is_empty_hash account_data then Ret None
  else
    match h_account_type account_data with
    | None => Raise (KeyError "account_type")
    | Some ty =>
        match h_balance account_data with
        | None => Raise (KeyError "balance")
        | Some b =>
            Ret (Some {| account_id := account_id; account_type := ty; balance := b |})
        end
    end.

(** server.py, lines 33-58.  No lock is taken. *)
Definition CreateAccount (request : AccountRequest.t) (context : ServicerContext)
  : prog (ServicerContext * AccountResponse.t) :=
  let account_id := AccountRequest.account_id request in
  let account_type := AccountRequest.account_type request in
  if negb (bool_decide (account_type ∈ ["savings"; "checking"])) then
    let context := set_code INVALID_ARGUMENT context in
    let context := set_details "Account type must be 'savings' or 'checking'" context in
    Ret (context, AccountResponse.empty)
  else
    present <- do (Exists (key account_id)) ;;
    if (present : bool) then
      let context := set_code ALREADY_EXISTS context in
      let context := set_details "Account already exists" context in
      Ret (context, AccountResponse.empty)
    else
      _ <- do (Hmset (key account_id)
                 [account_type_is account_type; balance_is 0%float]) ;;
      Ret (context,
           AccountResponse.mk account_id
             [Str "Account "; Str account_id; Str " created successfully"]).

(** server.py, lines 60-71.  No lock is taken. *)
Definition GetBalance (request : AccountRequest.t) (context : ServicerContext)
  : prog (ServicerContext * BalanceResponse.t) :=
  account_data <- get_account_data (AccountRequest.account_id request) ;;
  match account_data with
  | None =>
      let context := set_code NOT_FOUND context in
      let context :=
        set_details "Account not found. Please check the account ID." context in
      Ret (context, BalanceResponse.empty)
  | Some account_data =>
      Ret (context,
           BalanceResponse.mk (AccountRequest.account_id request)
             (balance account_data) [Str "Balance retrieved successfully"])
  end.

(** server.py, lines 73-94. *)
Definition Deposit (request : DepositRequest.t) (context : ServicerContext)
  : prog (ServicerContext * TransactionResponse.t) :=
  if (DepositRequest.amount request <=? 0)%float then
    let context := set_code INVALID_ARGUMENT context in
    let context := set_details "Transaction amount must be positive." context in
    Ret (context, TransactionResponse.empty)
  else
    account_lock <- get_account_lock (DepositRequest.account_id request) ;;
    with_lock account_lock (
      account_data <- get_account_data (DepositRequest.account_id request) ;;
      match account_data with
      | None =>
          let context := set_code NOT_FOUND context in
          let context :=
            set_details "Account not found. Please check the account ID." context in
          Ret (context, TransactionResponse.empty)
      | Some account_data =>
          let new_balance :=
            (balance account_data + DepositRequest.amount request)%float in
          _ <- do (Hset (key (DepositRequest.account_id request))
                     (balance_is new_balance)) ;;
          Ret (context,
               TransactionResponse.mk (DepositRequest.account_id request)
                 [Str "Successfully deposited $";
                  Fixed 2 (DepositRequest.amount request)]
                 new_balance)
      end).

(** server.py, lines 96-122. *)
Definition Withdraw (request : WithdrawRequest.t) (context : ServicerContext)
  : prog (ServicerContext * TransactionResponse.t) :=
  if (WithdrawRequest.amount request <=? 0)%float then
    let context := set_code INVALID_ARGUMENT context in
    let context := set_details "Transaction amount must be positive." context in
    Ret (context, TransactionResponse.empty)
  else
    account_lock <- get_account_lock (WithdrawRequest.account_id request) ;;
    with_lock account_lock (
      account_data <- get_account_data (WithdrawRequest.account_id request) ;;
      match account_data with
      | None =>
          let context := set_code NOT_FOUND context in
          let context :=
            set_details "Account not found. Please check the account ID." context in
          Ret (context, TransactionResponse.empty)
      | Some account_data =>
          if (balance account_data <? WithdrawRequest.amount request)%float then
            let context := set_code FAILED_PRECONDITION context in
            let context :=
              set_details "Insufficient funds for the requested withdrawal." context in
            Ret (context, TransactionResponse.empty)
          else
            let new_balance :=
              (balance account_data - WithdrawRequest.amount request)%float in
            _ <- do (Hset (key (WithdrawRequest.account_id request))
                       (balance_is new_balance)) ;;
            Ret (context,
                 TransactionResponse.mk (WithdrawRequest.account_id request)
                   [Str "Successfully withdrew $";
                    Fixed 2 (WithdrawRequest.amount request)]
                   new_balance)
      end).

(** server.py, lines 124-149.  The rate is applied once, as a percentage. *)
Definition CalculateInterest (request : InterestRequest.t) (context : ServicerContext)
  : prog (ServicerContext * TransactionResponse.t) :=
  if (InterestRequest.annual_interest_rate request <=? 0)%float then
    let context := set_code INVALID_ARGUMENT context in
    let context := set_details "Annual interest rate must be a positive value." context in
    Ret (context, TransactionResponse.empty)
  else
    account_lock <- get_account_lock (InterestRequest.account_id request) ;;
    with_lock account_lock (
      account_data <- get_account_data (InterestRequest.account_id request) ;;
      match account_data with
      | None =>
          let context := set_code NOT_FOUND context in
          let context :=
            set_details "Account not found. Please check the account ID." context in
          Ret (context, TransactionResponse.empty)
      | Some account_data =>
          let rate := InterestRequest.annual_interest_rate request in
          let interest_amount := (balance account_data * (rate / 100))%float in
          let new_balance := (balance account_data + interest_amount)%float in
          _ <- do (Hset (key (InterestRequest.account_id request))
                     (balance_is new_balance)) ;;
          Ret (context,
               TransactionResponse.mk (InterestRequest.account_id request)
                 [Str "Applied daily interest rate of "; Fixed 4 rate;
                  Str "% to bank amount of $"; Fixed 2 (balance account_data);
                  Str " for interest amount of $"; Fixed 2 interest_amount]
                 new_balance)
      end).

(** ** The routing of a request to its handler *)

Inductive request : Type :=
| CreateAccountCall (r : AccountRequest.t)
| GetBalanceCall (r : AccountRequest.t)
| DepositCall (r : DepositRequest.t)
| WithdrawCall (r : WithdrawRequest.t)
| CalculateInterestCall (r : InterestRequest.t).

Inductive response : Type :=
| AccountReply (r : AccountResponse.t)
| BalanceReply (r : BalanceResponse.t)
| TransactionReply (r : TransactionResponse.t).

(** What the server registered by [serve] does with a request: the handler
    of that name is called with the request and the call's context. *)
Definition handle (rq : request) (context : ServicerContext)
  : prog (ServicerContext * response) :=
  match rq with
  | CreateAccountCall r =>
      out <- CreateAccount r context ;; Ret (out.1, AccountReply out.2)
  | GetBalanceCall r =>
      out <- GetBalance r context ;; Ret (out.1, BalanceReply out.2)
  | DepositCall r =>
      out <- Deposit r context ;; Ret (out.1, TransactionReply out.2)
  | WithdrawCall r =>
      out <- Withdraw r context ;; Ret (out.1, TransactionReply out.2)
  | CalculateInterestCall r =>
      out <- CalculateInterest r context ;; Ret (out.1, TransactionReply out.2)
  end.

Definition target (rq : request) : string :=
  match rq with
  | CreateAccountCall r | GetBalanceCall r => AccountRequest.account_id r
  | DepositCall r => DepositRequest.account_id r
  | WithdrawCall r => WithdrawRequest.account_id r
  | CalculateInterestCall r => InterestRequest.account_id r
  end.

(** ** Reading the state *)

(** The record stored for an account. *)
Definition stored (s : Servicer) (account_id : string) : hash :=
  redis_hgetall (key account_id) (redis_client s).

(** A well-formed record: both fields present. *)
Definition account (ty : string) (b : float) : hash :=
  {| h_account_type := Some ty; h_balance := Some b |}.

(** No call holds the lock of [l]. *)
Definition lock_free (s : Servicer) (l : lock) : Prop :=
  account_locks s !! l <> Some true.

Definition with_locks (L : gmap string bool) (s : Servicer) : Servicer :=
  {| redis_client := redis_client s; account_locks := L |}.

(** The state a locked handler leaves: the store [db], the lock of [l] in the
    dictionary and free. *)
Definition released (l : lock) (db : gmap string hash) (s : Servicer) : Servicer :=
  {| redis_client := db; account_locks := <[l := false]> (account_locks s) |}.

Definition invalid_amount (context : ServicerContext) : ServicerContext :=
  set_details "Transaction amount must be positive."
    (set_code INVALID_ARGUMENT context).

Definition invalid_rate (context : ServicerContext) : ServicerContext :=
  set_details "Annual interest rate must be a positive value."
    (set_code INVALID_ARGUMENT context).

Definition not_found (context : ServicerContext) : ServicerContext :=
  set_details "Account not found. Please check the account ID."
    (set_code NOT_FOUND context).

Definition insufficient_funds (context : ServicerContext) : ServicerContext :=
  set_details "Insufficient funds for the requested withdrawal."
    (set_code FAILED_PRECONDITION context).

(** What a handler that takes the account lock, reads the record and then
    either answers [missing] or goes on with [found] does when run alone. *)
Definition locked_result {R : Type} (s : Servicer) (account_id : string)
    (missing : R) (found : string -> float -> outcome R * gmap string hash)
  : option (outcome R * Servicer) :=
  if decide (account_locks s !! account_id = Some true) then None
  else
    Some
      match h_account_type (stored s account_id), h_balance (stored s account_id) with
      | None, None => (Returned missing, released account_id (redis_client s) s)
      | None, Some _ =>
          (Raised (KeyError "account_type"), released account_id (redis_client s) s)
      | Some _, None =>
          (Raised (KeyError "balance"), released account_id (redis_client s) s)
      | Some ty, Some b => ((found ty b).1, released account_id (found ty b).2 s)
      end.

(** The result of a handler seen through [handle]. *)
Definition relabel {A B : Type} (f : A -> B)
    (r : option (outcome (ServicerContext * A) * Servicer))
  : option (outcome (ServicerContext * B) * Servicer) :=
  match r with
  | Some (Returned out, s') => Some (Returned (out.1, f out.2), s')
  | Some (Raised e, s') => Some (Raised e, s')
  | None => None
  end.

(** A store holding one savings account "A1" with the balance [b]. *)
Definition one_account (b : float) : Servicer :=
  {| redis_client := {[ key "A1" := account "savings" b ]};
     account_locks := ∅ |}.

Definition no_accounts : Servicer :=
  {| redis_client := ∅; account_locks := ∅ |}.

Definition updates_balance (rq : request) : Prop :=
  match rq with
  | DepositCall _ | WithdrawCall _ | CalculateInterestCall _ => True
  | CreateAccountCall _ | GetBalanceCall _ => False
  end.

(** ** Calls in progress *)

(** One atomic step of a call: its next action, when the state allows it. *)
Definition step_thread {R : Type} (p : prog R) (s : Servicer)
  : option (Servicer * prog R) :=
  match p with
  | Do a k =>
      match perform a s with
      | Some (x, s') => Some (s', k x)
      | None => None
      end
  | Ret _ | Raise _ => None
  end.

Definition finished {R : Type} (p : prog R) : bool :=
  match p with
  | Do _ _ => false
  | Ret _ | Raise _ => true
  end.

(** The servicer together with the calls the worker threads are running. *)
Definition config (R : Type) : Type := Servicer * list (prog R).

(** Thread [i] takes its next step. *)
Definition step_at {R : Type} (i : nat) (c : config R) : option (config R) :=
  match c.2 !! i with
  | Some p =>
      match step_thread p c.1 with
      | Some (s', p') => Some (s', <[i := p']> c.2)
      | None => None
      end
  | None => None
  end.

(** An interleaving is the list of the threads that move, in order. *)
Fixpoint exec {R : Type} (schedule : list nat) (c : config R) : option (config R) :=
  match schedule with
  | [] => Some c
  | i :: rest =>
      match step_at i c with
      | Some c' => exec rest c'
      | None => None
      end
  end.

(** The balance after [n] deposits of 1 into an account that starts at 0. *)
Definition sum_ones (n : nat) : float := Nat.iter n (fun b => (b + 1)%float) 0%float.

(** *** Where a call [Deposit(id, 1)] stands *)

Inductive phase : Type :=
| Start
| Waiting
| Reading
| Writing (b : float)
| Releasing (b : float)
| Finished (b : float).

Definition deposit_reply (id : string) (amount b : float)
  : ServicerContext * TransactionResponse.t :=
  (new_context,
   TransactionResponse.mk id
     [Str "Successfully deposited $"; Fixed 2 amount] (b + amount)%float).

Definition deposit_section (id : string) (amount : float)
  : prog (ServicerContext * TransactionResponse.t) :=
  account_data <- get_account_data id ;;
  match account_data with
  | None => Ret (not_found new_context, TransactionResponse.empty)
  | Some account_data =>
      _ <- do (Hset (key id) (balance_is (balance account_data + amount))) ;;
      Ret (deposit_reply id amount (balance account_data))
  end.

Definition thread_of (id : string) (ph : phase)
  : prog (ServicerContext * TransactionResponse.t) :=
  match ph with
  | Start => Deposit (DepositRequest.mk id 1) new_context
  | Waiting => with_lock id (deposit_section id 1)
  | Reading => finally (deposit_section id 1) (do (Release id))
  | Writing b =>
      finally (_ <- do (Hset (key id) (balance_is (b + 1))) ;;
               Ret (deposit_reply id 1 b))
        (do (Release id))
  | Releasing b => _ <- do (Release id) ;; Ret (deposit_reply id 1 b)
  | Finished b => Ret (deposit_reply id 1 b)
  end.

(** Weights of the phases: holding the lock, having written, steps left. *)
Definition holds (ph : phase) : nat :=
  match ph with
  | Reading | Writing _ | Releasing _ => 1
  | Start | Waiting | Finished _ => 0
  end.

Definition wrote (ph : phase) : nat :=
  match ph with
  | Releasing _ | Finished _ => 1
  | Start | Waiting | Reading | Writing _ => 0
  end.

Definition steps_left (ph : phase) : nat :=
  match ph with
  | Start => 5
  | Waiting => 4
  | Reading => 3
  | Writing _ => 2
  | Releasing _ => 1
  | Finished _ => 0
  end.

Definition tally (w : phase -> nat) (phs : list phase) : nat :=
  foldr (fun ph n => w ph + n) 0 phs.

(** The invariant of [n] calls [Deposit(id, 1)] on an account created with
    the balance 0. *)
Record deposits_inv (id ty : string) (s : Servicer) (phs : list phase) : Prop := {
  inv_balance : stored s id = account ty (sum_ones (tally wrote phs));
  inv_read : forall i b, phs !! i = Some (Writing b) -> b = sum_ones (tally wrote phs);
  inv_holder :
    tally holds phs = if decide (account_locks s !! id = Some true) then 1 else 0;
  inv_registered :
    account_locks s !! id = None -> forall i ph, phs !! i = Some ph -> ph = Start
}.

(** What a step of a thread in phase [ph] is. *)
Definition phase_step (id : string) (s : Servicer) (ph : phase)
  : option (Servicer * phase) :=
  match ph with
  | Start =>
      Some (match account_locks s !! id with
            | None => with_locks (<[id := false]> (account_locks s)) s
            | Some _ => s
            end, Waiting)
  | Waiting =>
      match account_locks s !! id with
      | Some false => Some (with_locks (<[id := true]> (account_locks s)) s, Reading)
      | _ => None
      end
  | Reading =>
      match h_account_type (stored s id), h_balance (stored s id) with
      | Some _, Some b => Some (s, Writing b)
      | _, _ => None
      end
  | Writing b =>
      Some ({| redis_client := redis_hset (key id) (balance_is (b + 1)) (redis_client s);
               account_locks := account_locks s |}, Releasing b)
  | Releasing b =>
      match account_locks s !! id with
      | Some true => Some (with_locks (<[id := false]> (account_locks s)) s, Finished b)
      | _ => None
      end
  | Finished _ => None
  end.

(** ** Integers as binary64 numbers *)

(** [p] followed by [n] zero bits. *)
Definition shl (n : nat) (p : positive) : positive := Nat.iter n xO p.

(** The binary64 number of value [p], for [p] below [2^53]: the mantissa is
    [p] moved up to 53 bits. *)
Definition SF_of_pos (p : positive) : spec_float :=
  S754_finite false
    (shl (Z.to_nat (prec - Zpos (digits2_pos p))) p)
    (Zpos (digits2_pos p) - prec).

(** The float [x] is the integer [n], exactly: the value
    [(-1)^s * m * 2^e] of a finite float, 0 for a zero. *)
Definition is_integer (x : float) (n : Z) : bool :=
  match Prim2SF x with
  | S754_zero _ => (n =? 0)%Z
  | S754_finite s m e =>
      (cond_Zopp s (Zpos m) * 2 ^ Z.max e 0 =? n * 2 ^ Z.max (- e) 0)%Z
  | S754_infinity _ | S754_nan => false
  end.

(** ** Calls served one after the other *)

(** [__init__] (server.py, lines 10-15): the connection to the store, which
    may hold accounts already, and an empty dictionary of locks. *)
Definition init (db : gmap string hash) : Servicer :=
  {| redis_client := db; account_locks := ∅ |}.

(** The calls of a list, each completed before the next one starts and each
    with a context of its own, as the example session of client.py issues
    them. *)
Fixpoint serve_all (rqs : list request) (s : Servicer)
  : option (list (outcome (ServicerContext * response)) * Servicer) :=
  match rqs with
  | [] => Some ([], s)
  | rq :: rest =>
      match run (handle rq new_context) s with
      | Some (o, s') =>
          match serve_all rest s' with
          | Some (os, s'') => Some (o :: os, s'')
          | None => None
          end
      | None => None
      end
  end.

(** Whether a call passes the validation of its amount or rate and goes on
    to take the lock of its account. *)
Definition takes_lock (rq : request) : bool :=
  match rq with
  | DepositCall r => negb (DepositRequest.amount r <=? 0)%float
  | WithdrawCall r => negb (WithdrawRequest.amount r <=? 0)%float
  | CalculateInterestCall r =>
      negb (InterestRequest.annual_interest_rate r <=? 0)%float
  | CreateAccountCall _ | GetBalanceCall _ => false
  end.

(** What a call leaves behind for the account it names: the record written,
    if any, and the state its lock is set to, if any. *)
Record effect : Type := {
  put_hash : option hash;
  put_lock : option bool
}.

Definition apply_effect (account_id : string) (e : effect) (s : Servicer) : Servicer :=
  {| redis_client :=
       match put_hash e with
       | Some h => <[key account_id := h]> (redis_client s)
       | None => redis_client s
       end;
     account_locks :=
       match put_lock e with
       | Some b => <[account_id := b]> (account_locks s)
       | None => account_locks s
       end |}.

(** Every record of the store has both fields and a type that CreateAccount
    accepts; no lock is held. *)
Definition sound_record (h : hash) : Prop :=
  h = empty_hash
  \/ exists ty b, h = account ty b /\ ty ∈ ["savings"; "checking"].

Definition sound (s : Servicer) : Prop :=
  (forall id, sound_record (stored s id))
  /\ (forall l, lock_free s l).

Definition is_returned {R : Type} (o : outcome R) : Prop :=
  match o with
  | Returned _ => True
  | Raised _ => False
  end.

(** ** Interleaved calls that update balances *)

Definition of_outcome {R : Type} (o : outcome R) : prog R :=
  match o with
  | Returned r => Ret r
  | Raised e => Raise e
  end.

(** The with-blocks of Withdraw and CalculateInterest (that of Deposit is
    [deposit_section]). *)
Definition withdraw_section (id : string) (amount : float)
  : prog (ServicerContext * TransactionResponse.t) :=
  account_data <- get_account_data id ;;
  match account_data with
  | None => Ret (not_found new_context, TransactionResponse.empty)
  | Some account_data =>
      if (balance account_data <? amount)%float then
        Ret (insufficient_funds new_context, TransactionResponse.empty)
      else
        let new_balance := (balance account_data - amount)%float in
        _ <- do (Hset (key id) (balance_is new_balance)) ;;
        Ret (new_context,
             TransactionResponse.mk id
               [Str "Successfully withdrew $"; Fixed 2 amount] new_balance)
  end.

Definition interest_section (id : string) (rate : float)
  : prog (ServicerContext * TransactionResponse.t) :=
  account_data <- get_account_data id ;;
  match account_data with
  | None => Ret (not_found new_context, TransactionResponse.empty)
  | Some account_data =>
      let interest_amount := (balance account_data * (rate / 100))%float in
      let new_balance := (balance account_data + interest_amount)%float in
      _ <- do (Hset (key id) (balance_is new_balance)) ;;
      Ret (new_context,
           TransactionResponse.mk id
             [Str "Applied daily interest rate of "; Fixed 4 rate;
              Str "% to bank amount of $"; Fixed 2 (balance account_data);
              Str " for interest amount of $"; Fixed 2 interest_amount]
             new_balance)
  end.

Definition critical_section (rq : request)
  : prog (ServicerContext * TransactionResponse.t) :=
  match rq with
  | DepositCall r =>
      deposit_section (DepositRequest.account_id r) (DepositRequest.amount r)
  | WithdrawCall r =>
      withdraw_section (WithdrawRequest.account_id r) (WithdrawRequest.amount r)
  | CalculateInterestCall r =>
      interest_section (InterestRequest.account_id r)
        (InterestRequest.annual_interest_rate r)
  | CreateAccountCall _ | GetBalanceCall _ =>
      Ret (new_context, TransactionResponse.empty)
  end.

(** The reply of a handler as [handle] passes it on. *)
Definition transaction (p : prog (ServicerContext * TransactionResponse.t))
  : prog (ServicerContext * response) :=
  out <- p ;; Ret (out.1, TransactionReply out.2).

(** What the with-block of an update does once it has read the record [h]:
    the balance it writes, if it writes, and how the call ends. *)
Definition decide_update (rq : request) (h : hash)
  : option float * outcome (ServicerContext * response) :=
  match h_account_type h, h_balance h with
  | None, None =>
      (None, Returned (not_found new_context,
                       TransactionReply TransactionResponse.empty))
  | None, Some _ => (None, Raised (KeyError "account_type"))
  | Some _, None => (None, Raised (KeyError "balance"))
  | Some _, Some b =>
      match rq with
      | DepositCall r =>
          let x := (b + DepositRequest.amount r)%float in
          (Some x,
           Returned (new_context,
                     TransactionReply
                       (TransactionResponse.mk (DepositRequest.account_id r)
                          [Str "Successfully deposited $";
                           Fixed 2 (DepositRequest.amount r)] x)))
      | WithdrawCall r =>
          if (b <? WithdrawRequest.amount r)%float then
            (None, Returned (insufficient_funds new_context,
                             TransactionReply TransactionResponse.empty))
          else
            let x := (b - WithdrawRequest.amount r)%float in
            (Some x,
             Returned (new_context,
                       TransactionReply
                         (TransactionResponse.mk (WithdrawRequest.account_id r)
                            [Str "Successfully withdrew $";
                             Fixed 2 (WithdrawRequest.amount r)] x)))
      | CalculateInterestCall r =>
          let rate := InterestRequest.annual_interest_rate r in
          let x := (b + b * (rate / 100))%float in
          (Some x,
           Returned (new_context,
                     TransactionReply
                       (TransactionResponse.mk (InterestRequest.account_id r)
                          [Str "Applied daily interest rate of "; Fixed 4 rate;
                           Str "% to bank amount of $"; Fixed 2 b;
                           Str " for interest amount of $";
                           Fixed 2 (b * (rate / 100))%float] x)))
      | CreateAccountCall _ | GetBalanceCall _ =>
          (None, Returned (new_context,
                           TransactionReply TransactionResponse.empty))
      end
  end.

(** Where an update call stands. *)
Inductive stage : Type :=
| Begin
| Awaiting
| InSection
| Storing (x : float) (o : outcome (ServicerContext * response))
| Leaving (o : outcome (ServicerContext * response))
| Over (o : outcome (ServicerContext * response)).

Definition after_read (rq : request) (h : hash) : stage :=
  match decide_update rq h with
  | (Some x, o) => Storing x o
  | (None, o) => Leaving o
  end.

(** The program that is left of the call [th.1] at the stage [th.2]. *)
Definition thread_at (th : request * stage) : prog (ServicerContext * response) :=
  let id := target th.1 in
  match th.2 with
  | Begin => handle th.1 new_context
  | Awaiting => transaction (with_lock id (critical_section th.1))
  | InSection => transaction (finally (critical_section th.1) (do (Release id)))
  | Storing x o =>
      Do (Hset (key id) (balance_is x))
        (fun _ => Do (Release id) (fun _ => of_outcome o))
  | Leaving o => Do (Release id) (fun _ => of_outcome o)
  | Over o => of_outcome o
  end.

(** Weights of a call at a stage: 1 when it is inside the with-block of the
    account [id]; the atomic steps it has left, at most. *)
Definition inside (id : string) (th : request * stage) : nat :=
  match th.2 with
  | InSection | Storing _ _ | Leaving _ =>
      if decide (target th.1 = id) then 1 else 0
  | Begin | Awaiting | Over _ => 0
  end.

Definition steps_ahead (th : request * stage) : nat :=
  match th.2 with
  | Begin => 5
  | Awaiting => 4
  | InSection => 3
  | Storing _ _ => 2
  | Leaving _ => 1
  | Over _ => 0
  end.

Definition total {A : Type} (w : A -> nat) (l : list A) : nat :=
  foldr (fun x n => w x + n) 0 l.

(** A call has taken effect once its write is done, or once it has read the
    record and has nothing to write. *)
Definition took_effect (th : request * stage)
  : option (request * outcome (ServicerContext * response)) :=
  match th.2 with
  | Leaving o | Over o => Some (th.1, o)
  | Begin | Awaiting | InSection | Storing _ _ => None
  end.

(** The next action of a program belongs to the with-block of the account
    [id] of an update call: reading or writing its record, or releasing its
    lock. *)
Definition in_section {R : Type} (id : string) (p : prog R) : bool :=
  match p with
  | Do a _ =>
      match a with
      | Hgetall k => bool_decide (k = key id)
      | Hset k _ => bool_decide (k = key id)
      | Release l => bool_decide (l = id)
      | GetAccountLock _ | Acquire _ | Exists _ | Hmset _ _ => false
      end
  | Ret _ | Raise _ => false
  end.

(** The invariant of a pool of update calls: [log] lists the calls that have
    taken effect, in the order in which they did, each with its outcome;
    served one after the other from the start [s0] they lead to [t], which
    holds the same store as [s]. *)
Record updates_inv (s0 s : Servicer) (ths : list (request * stage))
    (log : list (request * outcome (ServicerContext * response)))
    (t : Servicer) : Prop := {
  ui_serial : serve_all log.*1 s0 = Some (log.*2, t);
  ui_store : redis_client t = redis_client s;
  ui_free : forall l, lock_free t l;
  ui_log : log ≡ₚ omap took_effect ths;
  ui_valid : Forall (fun th => takes_lock th.1 = true) ths;
  ui_read :
    forall i rq x o,
      ths !! i = Some (rq, Storing x o) ->
      decide_update rq (stored s (target rq)) = (Some x, o);
  ui_holder :
    forall id,
      total (inside id) ths =
        if decide (account_locks s !! id = Some true) then 1 else 0;
  ui_registered :
    forall i rq st,
      ths !! i = Some (rq, st) ->
      account_locks s !! target rq = None ->
      st = Begin
}.

(** What a step of an update call at a stage is. *)
Definition stage_step (rq : request) (s : Servicer) (st : stage)
  : option (Servicer * stage) :=
  let id := target rq in
  match st with
  | Begin =>
      Some (match account_locks s !! id with
            | None => with_locks (<[id := false]> (account_locks s)) s
            | Some _ => s
            end, Awaiting)
  | Awaiting =>
      match account_locks s !! id with
      | Some false => Some (with_locks (<[id := true]> (account_locks s)) s, InSection)
      | _ => None
      end
  | InSection => Some (s, after_read rq (stored s id))
  | Storing x o =>
      Some ({| redis_client := redis_hset (key id) (balance_is x) (redis_client s);
               account_locks := account_locks s |}, Leaving o)
  | Leaving o =>
      match account_locks s !! id with
      | Some true => Some (with_locks (<[id := false]> (account_locks s)) s, Over o)
      | _ => None
      end
  | Over _ => None
  end.

(** ** Balances that stay at or above zero *)

(** Not NaN and not below zero (a zero of either sign and [+inf] count). *)
Definition nonneg (x : spec_float) : bool :=
  match x with
  | S754_zero _ => true
  | S754_infinity s | S754_finite s _ _ => negb s
  | S754_nan => false
  end.

(** The amount or rate of a call is a number the arithmetic of its handler
    is meant for: the amount of a deposit is not NaN, the amount of a
    withdrawal is neither NaN nor [+inf], and the rate is refused or its
    hundredth is positive and finite. *)
Definition numeric (rq : request) : bool :=
  match rq with
  | DepositCall r =>
      let a := DepositRequest.amount r in
      (a <=? 0)%float || (0 <? a)%float
  | WithdrawCall r =>
      let a := WithdrawRequest.amount r in
      (a <=? 0)%float || ((0 <? a)%float && (a <? infinity)%float)
  | CalculateInterestCall r =>
      let rate := InterestRequest.annual_interest_rate r in
      (rate <=? 0)%float
      || ((0 <? rate / 100)%float && (rate / 100 <? infinity)%float)
  | CreateAccountCall _ | GetBalanceCall _ => true
  end.

(** No account has a balance that is NaN or below zero. *)
Definition non_negative (s : Servicer) : Prop :=
  forall id ty b, stored s id = account ty b -> (0 <=? b)%float = true.

(** * Properties *)

(** ** Comparison of floats *)

Lemma SFcompare_antisym (x y : spec_float) :
  SFcompare y x = option_map CompOpp (SFcompare x y).
Proof.
  destruct x as [sx|sx| |sx mx ex], y as [sy|sy| |sy my ey]; simpl;
    try destruct sx; try destruct sy; try reflexivity.
  all: rewrite (Z.compare_antisym ey ex);
    destruct (ey ?= ex)%Z; simpl; try reflexivity;
    rewrite ?(Pos.compare_cont_antisym mx my Eq); simpl;
    now rewrite ?CompOpp_involutive.
Qed.

Lemma ltb_leb_false (x y : float) :
  (x <? y)%float = true -> (y <=? x)%float = false.
Proof.
  rewrite ltb_spec, leb_spec. unfold SFltb, SFleb.
  rewrite (SFcompare_antisym (Prim2SF x) (Prim2SF y)).
  destruct (SFcompare (Prim2SF x) (Prim2SF y)) as [[]|]; simpl; congruence.
Qed.

Lemma leb_ltb_false (x y : float) :
  (x <=? y)%float = true -> (y <? x)%float = false.
Proof.
  rewrite ltb_spec, leb_spec. unfold SFltb, SFleb.
  rewrite (SFcompare_antisym (Prim2SF x) (Prim2SF y)).
  destruct (SFcompare (Prim2SF x) (Prim2SF y)) as [[]|]; simpl; congruence.
Qed.

Lemma ltb_leb (x y : float) :
  (x <? y)%float = true -> (x <=? y)%float = true.
Proof.
  rewrite ltb_spec, leb_spec. unfold SFltb, SFleb.
  destruct (SFcompare (Prim2SF x) (Prim2SF y)) as [[]|]; simpl; congruence.
Qed.

(** ** Running a program *)

(** [run] is [step_thread] repeated until the call has ended or waits. *)
Lemma run_step_thread {R : Type} (p : prog R) (s : Servicer) :
  run p s =
  match step_thread p s with
  | Some (s', p') => run p' s'
  | None =>
      match p with
      | Ret r => Some (Returned r, s)
      | Raise e => Some (Raised e, s)
      | Do _ _ => None
      end
  end.
Proof.
  destruct p as [r|e|T a k]; cbn; try reflexivity.
  by destruct (perform a s) as [[x s']|].
Qed.

Lemma run_bind {A B : Type} (p : prog A) (f : A -> prog B) (s : Servicer) :
  run (bind p f) s =
  match run p s with
  | Some (Returned x, s') => run (f x) s'
  | Some (Raised e, s') => Some (Raised e, s')
  | None => None
  end.
Proof.
  revert s. induction p as [r|e|T a k IH]; intros s; simpl; try reflexivity.
  destruct (perform a s) as [[x s']|]; [apply IH|reflexivity].
Qed.

Lemma run_finally {R : Type} (body : prog R) (exit : prog unit) (s : Servicer) :
  run (finally body exit) s =
  match run body s with
  | Some (o, s') =>
      match run exit s' with
      | Some (Returned _, s'') => Some (o, s'')
      | Some (Raised e, s'') => Some (Raised e, s'')
      | None => None
      end
  | None => None
  end.
Proof.
  revert s. induction body as [r|e|T a k IH]; intros s; simpl.
  - rewrite run_bind. destruct (run exit s) as [[[]]|]; reflexivity.
  - rewrite run_bind. destruct (run exit s) as [[[]]|]; reflexivity.
  - destruct (perform a s) as [[x s']|]; [apply IH|reflexivity].
Qed.

Lemma run_critical {R : Type} (account_id : string) (body : prog R) (s : Servicer)
    (o : outcome R) (db : gmap string hash) :
  (forall L, run body (with_locks L s) = Some (o, {| redis_client := db; account_locks := L |})) ->
  run (l <- get_account_lock account_id ;; with_lock l body) s =
  if decide (account_locks s !! account_id = Some true) then None
  else Some (o, released account_id db s).
Proof.
  intros Hbody. unfold get_account_lock, with_lock, do. cbn.
  destruct (account_locks s !! account_id) as [[]|] eqn:E; cbn.
  - rewrite E. rewrite decide_True by done. reflexivity.
  - rewrite E. rewrite decide_False by done. rewrite run_finally.
    change {| redis_client := redis_client s;
              account_locks := <[account_id:=true]> (account_locks s) |}
      with (with_locks (<[account_id:=true]> (account_locks s)) s).
    rewrite Hbody. cbn. rewrite lookup_insert_eq. cbn.
    unfold released. by rewrite insert_insert_eq.
  - rewrite lookup_insert_eq. rewrite decide_False by done. rewrite run_finally.
    match goal with |- context [run body ?st] =>
      change st
        with (with_locks
                (<[account_id:=true]> (<[account_id:=false]> (account_locks s))) s)
    end.
    rewrite Hbody. cbn. rewrite lookup_insert_eq. cbn.
    unfold released. by rewrite !insert_insert_eq.
Qed.

(** The critical section of a handler whose body only talks to the store. *)
Ltac store_only Hs :=
  let L := fresh "L" in
  intros L; cbn; unfold stored in Hs; rewrite Hs; cbn;
  rewrite ?Hs; try reflexivity.

Lemma stored_released (l : lock) (db : gmap string hash) (s : Servicer)
    (account_id : string) :
  stored (released l db s) account_id = redis_hgetall (key account_id) db.
Proof. reflexivity. Qed.

Lemma hgetall_hset_eq (k : string) (fv : field_value) (db : gmap string hash) :
  redis_hgetall k (redis_hset k fv db) = hash_set fv (redis_hgetall k db).
Proof. unfold redis_hgetall at 1, redis_hset. by rewrite lookup_insert_eq. Qed.

Lemma hgetall_hset_ne (k k' : string) (fv : field_value) (db : gmap string hash) :
  k <> k' -> redis_hgetall k' (redis_hset k fv db) = redis_hgetall k' db.
Proof. intros. unfold redis_hgetall, redis_hset. by rewrite lookup_insert_ne. Qed.

Lemma key_inj (a b : string) : key a = key b -> a = b.
Proof. unfold key. intros H. by simplify_eq/=. Qed.

Ltac locked_cases s id :=
  unfold locked_result;
  let Hs := fresh "Hs" in
  destruct (stored s id) as [[?|] [?|]] eqn:Hs; cbn [h_account_type h_balance];
  apply run_critical; store_only Hs.

Lemma run_GetBalance (request : AccountRequest.t) (context : ServicerContext)
    (s : Servicer) :
  let id := AccountRequest.account_id request in
  run (GetBalance request context) s =
  Some
    (match h_account_type (stored s id), h_balance (stored s id) with
     | None, None => Returned (not_found context, BalanceResponse.empty)
     | None, Some _ => Raised (KeyError "account_type")
     | Some _, None => Raised (KeyError "balance")
     | Some ty, Some b =>
         Returned (context,
                   BalanceResponse.mk id b [Str "Balance retrieved successfully"])
     end, s).
Proof.
  intros id. unfold GetBalance, stored. cbn. fold id.
  by destruct (redis_hgetall (key id) (redis_client s)) as [[?|] [?|]].
Qed.

Lemma run_CreateAccount (request : AccountRequest.t) (context : ServicerContext)
    (s : Servicer) :
  let id := AccountRequest.account_id request in
  let ty := AccountRequest.account_type request in
  run (CreateAccount request context) s =
  Some
    (if negb (bool_decide (ty ∈ ["savings"; "checking"])) then
       (Returned (set_details "Account type must be 'savings' or 'checking'"
                    (set_code INVALID_ARGUMENT context),
                  AccountResponse.empty), s)
     else if redis_exists (key id) (redis_client s) then
       (Returned (set_details "Account already exists"
                    (set_code ALREADY_EXISTS context),
                  AccountResponse.empty), s)
     else
       (Returned (context,
                  AccountResponse.mk id
                    [Str "Account "; Str id; Str " created successfully"]),
        {| redis_client :=
             redis_hmset (key id) [account_type_is ty; balance_is 0%float]
               (redis_client s);
           account_locks := account_locks s |})).
Proof.
  intros id ty. unfold CreateAccount. fold id ty.
  destruct (negb _); [reflexivity|]. cbn.
  by destruct (redis_exists _ _).
Qed.

Lemma run_Deposit (id : string) (amount : float) (context : ServicerContext)
    (s : Servicer) :
  run (Deposit (DepositRequest.mk id amount) context) s =
  if (amount <=? 0)%float then
    Some (Returned (invalid_amount context, TransactionResponse.empty), s)
  else
    locked_result s id (not_found context, TransactionResponse.empty)
      (fun _ b =>
         (Returned (context,
                    TransactionResponse.mk id
                      [Str "Successfully deposited $"; Fixed 2 amount]
                      (b + amount)%float),
          redis_hset (key id) (balance_is (b + amount)) (redis_client s))).
Proof.
  unfold Deposit. cbn [DepositRequest.amount DepositRequest.account_id].
  destruct (amount <=? 0)%float; [reflexivity|]. locked_cases s id.
Qed.

Lemma run_Withdraw (id : string) (amount : float) (context : ServicerContext)
    (s : Servicer) :
  run (Withdraw (WithdrawRequest.mk id amount) context) s =
  if (amount <=? 0)%float then
    Some (Returned (invalid_amount context, TransactionResponse.empty), s)
  else
    locked_result s id (not_found context, TransactionResponse.empty)
      (fun _ b =>
         if (b <? amount)%float then
           (Returned (insufficient_funds context, TransactionResponse.empty),
            redis_client s)
         else
           (Returned (context,
                      TransactionResponse.mk id
                        [Str "Successfully withdrew $"; Fixed 2 amount]
                        (b - amount)%float),
            redis_hset (key id) (balance_is (b - amount)) (redis_client s))).
Proof.
  unfold Withdraw. cbn [WithdrawRequest.amount WithdrawRequest.account_id].
  destruct (amount <=? 0)%float; [reflexivity|]. locked_cases s id.
  by destruct (_ <? _)%float.
Qed.

Lemma run_CalculateInterest (id : string) (rate : float) (context : ServicerContext)
    (s : Servicer) :
  run (CalculateInterest (InterestRequest.mk id rate) context) s =
  if (rate <=? 0)%float then
    Some (Returned (invalid_rate context, TransactionResponse.empty), s)
  else
    locked_result s id (not_found context, TransactionResponse.empty)
      (fun _ b =>
         (Returned (context,
                    TransactionResponse.mk id
                      [Str "Applied daily interest rate of "; Fixed 4 rate;
                       Str "% to bank amount of $"; Fixed 2 b;
                       Str " for interest amount of $";
                       Fixed 2 (b * (rate / 100))%float]
                      (b + b * (rate / 100))%float),
          redis_hset (key id) (balance_is (b + b * (rate / 100)))
            (redis_client s))).
Proof.
  unfold CalculateInterest.
  cbn [InterestRequest.annual_interest_rate InterestRequest.account_id].
  destruct (rate <=? 0)%float; [reflexivity|]. locked_cases s id.
Qed.

(** The closed form at a well-formed record whose lock is free. *)
Lemma locked_result_account {R : Type} (s : Servicer) (id ty : string) (b : float)
    (missing : R) (found : string -> float -> outcome R * gmap string hash) :
  lock_free s id ->
  stored s id = account ty b ->
  locked_result s id missing found =
  Some ((found ty b).1, released id (found ty b).2 s).
Proof.
  intros Hl Hs. unfold locked_result. rewrite decide_False by exact Hl.
  by rewrite Hs.
Qed.

Lemma locked_result_absent {R : Type} (s : Servicer) (id : string)
    (missing : R) (found : string -> float -> outcome R * gmap string hash) :
  lock_free s id ->
  stored s id = empty_hash ->
  locked_result s id missing found =
  Some (Returned missing, released id (redis_client s) s).
Proof.
  intros Hl Hs. unfold locked_result. rewrite decide_False by exact Hl.
  by rewrite Hs.
Qed.

Lemma stored_hset_balance (s : Servicer) (id ty : string) (b x : float) :
  stored s id = account ty b ->
  stored (released id (redis_hset (key id) (balance_is x) (redis_client s)) s) id
  = account ty x.
Proof.
  intros Hs. rewrite stored_released, hgetall_hset_eq.
  unfold stored in Hs. by rewrite Hs.
Qed.

(** ** Deposit, Withdraw, CalculateInterest on an existing account *)

Lemma one_account_lock_free (b : float) : lock_free (one_account b) "A1".
Proof. unfold lock_free. cbn. by rewrite lookup_empty. Qed.

(** C1. Deposit of a positive amount into an existing account whose stored
    balance is [b] writes [b + amount], answers successfully with that
    balance, and a GetBalance that follows reads exactly [b + amount]. *)
Theorem Deposit_adds_amount (s : Servicer) (id ty ty' : string) (b amount : float) :
  lock_free s id ->
  stored s id = account ty b ->
  (0 <? amount)%float = true ->
  let s' := released id (redis_hset (key id) (balance_is (b + amount)) (redis_client s)) s in
  run (Deposit (DepositRequest.mk id amount) new_context) s =
    Some (Returned (new_context,
                    TransactionResponse.mk id
                      [Str "Successfully deposited $"; Fixed 2 amount]
                      (b + amount)%float), s')
  /\ stored s' id = account ty (b + amount)
  /\ run (GetBalance (AccountRequest.mk id ty') new_context) s' =
       Some (Returned (new_context,
                       BalanceResponse.mk id (b + amount)%float
                         [Str "Balance retrieved successfully"]), s').
Proof.
  intros Hl Hs Ha s'.
  assert (Hs' : stored s' id = account ty (b + amount))
    by exact (stored_hset_balance s id ty b _ Hs).
  split; [|split; [exact Hs'|]].
  - rewrite run_Deposit, (ltb_leb_false _ _ Ha).
    by rewrite (locked_result_account s id ty b).
  - rewrite run_GetBalance. cbn. by rewrite Hs'.
Qed.

(** On the account "A1" holding 500, a deposit of 1000 stores and returns 1500. *)
Lemma Deposit_adds_amount_witness :
  stored (one_account 500) "A1" = account "savings" 500
  /\ (0 <? 1000)%float = true
  /\ run (Deposit (DepositRequest.mk "A1" 1000) new_context) (one_account 500) =
       Some (Returned (new_context,
                       TransactionResponse.mk "A1"
                         [Str "Successfully deposited $"; Fixed 2 1000] 1500),
             released "A1"
               (redis_hset (key "A1") (balance_is 1500) (redis_client (one_account 500)))
               (one_account 500)).
Proof.
  split; [reflexivity|]. split; [reflexivity|].
  exact (proj1 (Deposit_adds_amount (one_account 500) "A1" "savings" EmptyString 500 1000
                  (one_account_lock_free 500) eq_refl eq_refl)).
Defined.

(** C2. Withdraw on an existing account whose stored balance is [b]: an
    amount that is not positive is refused with INVALID_ARGUMENT; a positive
    amount above [b] is refused with FAILED_PRECONDITION and the balance stays
    [b]; a positive amount of at most [b] succeeds, the stored balance and the
    balance of the response are [b - amount]. *)
Theorem Withdraw_cases (s : Servicer) (id ty : string) (b amount : float) :
  stored s id = account ty b ->
  ((amount <=? 0)%float = true ->
   run (Withdraw (WithdrawRequest.mk id amount) new_context) s =
     Some (Returned (invalid_amount new_context, TransactionResponse.empty), s))
  /\ (lock_free s id -> (0 <? amount)%float = true -> (b <? amount)%float = true ->
      let s' := released id (redis_client s) s in
      run (Withdraw (WithdrawRequest.mk id amount) new_context) s =
        Some (Returned (insufficient_funds new_context, TransactionResponse.empty), s')
      /\ stored s' id = account ty b)
  /\ (lock_free s id -> (0 <? amount)%float = true -> (amount <=? b)%float = true ->
      let s' :=
        released id (redis_hset (key id) (balance_is (b - amount)) (redis_client s)) s in
      run (Withdraw (WithdrawRequest.mk id amount) new_context) s =
        Some (Returned (new_context,
                        TransactionResponse.mk id
                          [Str "Successfully withdrew $"; Fixed 2 amount]
                          (b - amount)%float), s')
      /\ stored s' id = account ty (b - amount)).
Proof.
  intros Hs. split; [|split].
  - intros Ha. by rewrite run_Withdraw, Ha.
  - intros Hl Ha Hb s'. split; [|exact Hs].
    rewrite run_Withdraw, (ltb_leb_false _ _ Ha).
    rewrite (locked_result_account s id ty b) by assumption.
    by rewrite Hb.
  - intros Hl Ha Hb s'. split; [|exact (stored_hset_balance s id ty b _ Hs)].
    rewrite run_Withdraw, (ltb_leb_false _ _ Ha).
    rewrite (locked_result_account s id ty b) by assumption.
    by rewrite (leb_ltb_false _ _ Hb).
Qed.

(** On the account "A1" holding 500: withdrawing -5, 600 and 200. *)
Lemma Withdraw_cases_witness :
  run (Withdraw (WithdrawRequest.mk "A1" (-5)) new_context) (one_account 500) =
    Some (Returned (invalid_amount new_context, TransactionResponse.empty),
          one_account 500)
  /\ run (Withdraw (WithdrawRequest.mk "A1" 600) new_context) (one_account 500) =
       Some (Returned (insufficient_funds new_context, TransactionResponse.empty),
             released "A1" (redis_client (one_account 500)) (one_account 500))
  /\ stored
       (released "A1"
          (redis_hset (key "A1") (balance_is 300) (redis_client (one_account 500)))
          (one_account 500)) "A1"
     = account "savings" 300.
Proof.
  split; [|split].
  - exact (proj1 (Withdraw_cases (one_account 500) "A1" "savings" 500 (-5) eq_refl)
             eq_refl).
  - exact (proj1 (proj1 (proj2 (Withdraw_cases (one_account 500) "A1" "savings" 500 600
                                  eq_refl))
                    (one_account_lock_free 500) eq_refl eq_refl)).
  - exact (proj2 (proj2 (proj2 (Withdraw_cases (one_account 500) "A1" "savings" 500 200
                                  eq_refl))
                    (one_account_lock_free 500) eq_refl eq_refl)).
Defined.

(** C3. CalculateInterest on an existing account whose stored balance is [b]:
    a rate that is not positive is refused with INVALID_ARGUMENT; a positive
    rate [r] is applied once and in full, the stored balance and the balance
    of the response are [b + b * (r / 100)]. *)
Theorem CalculateInterest_applies_rate (s : Servicer) (id ty : string)
    (b r : float) :
  stored s id = account ty b ->
  ((r <=? 0)%float = true ->
   run (CalculateInterest (InterestRequest.mk id r) new_context) s =
     Some (Returned (invalid_rate new_context, TransactionResponse.empty), s))
  /\ (lock_free s id -> (0 <? r)%float = true ->
      let new_balance := (b + b * (r / 100))%float in
      let s' :=
        released id (redis_hset (key id) (balance_is new_balance) (redis_client s)) s in
      exists message,
        run (CalculateInterest (InterestRequest.mk id r) new_context) s =
          Some (Returned (new_context,
                          TransactionResponse.mk id message new_balance), s')
        /\ stored s' id = account ty new_balance).
Proof.
  intros Hs. split.
  - intros Hr. by rewrite run_CalculateInterest, Hr.
  - intros Hl Hr new_balance s'. eexists. split;
      [|exact (stored_hset_balance s id ty b _ Hs)].
    rewrite run_CalculateInterest, (ltb_leb_false _ _ Hr).
    by rewrite (locked_result_account s id ty b).
Qed.

(** On the account "A1" holding 500, the rate 10 gives 550. *)
Lemma CalculateInterest_applies_rate_witness :
  stored
    (released "A1"
       (redis_hset (key "A1") (balance_is 550) (redis_client (one_account 500)))
       (one_account 500)) "A1"
  = account "savings" 550.
Proof.
  destruct (proj2 (CalculateInterest_applies_rate (one_account 500) "A1" "savings"
                     500 10 eq_refl)
              (one_account_lock_free 500) eq_refl) as (message & _ & Hs).
  exact Hs.
Defined.

(** ** CreateAccount *)

Lemma stored_hmset_new (s : Servicer) (id ty : string) (L : gmap string bool) :
  stored {| redis_client :=
              redis_hmset (key id) [account_type_is ty; balance_is 0%float]
                (redis_client s);
            account_locks := L |} id
  = account ty 0.
Proof.
  unfold stored, redis_hmset. cbn [redis_client].
  unfold redis_hgetall at 1. by rewrite lookup_insert_eq.
Qed.

Lemma exists_false_stored (s : Servicer) (id : string) :
  redis_exists (key id) (redis_client s) = false <-> stored s id = empty_hash.
Proof.
  unfold redis_exists, stored.
  unfold empty_hash.
  destruct (redis_hgetall (key id) (redis_client s)) as [[?|] [?|]];
    cbn; split; congruence.
Qed.

(** C6. CreateAccount with the type savings or checking and an identifier
    that has no record succeeds and stores the balance 0; a GetBalance that
    follows answers with the balance 0. *)
Theorem CreateAccount_then_GetBalance (s : Servicer) (id ty ty' : string) :
  ty ∈ ["savings"; "checking"] ->
  stored s id = empty_hash ->
  let s' := {| redis_client :=
                 redis_hmset (key id) [account_type_is ty; balance_is 0%float]
                   (redis_client s);
               account_locks := account_locks s |} in
  run (CreateAccount (AccountRequest.mk id ty) new_context) s =
    Some (Returned (new_context,
                    AccountResponse.mk id
                      [Str "Account "; Str id; Str " created successfully"]), s')
  /\ stored s' id = account ty 0
  /\ run (GetBalance (AccountRequest.mk id ty') new_context) s' =
       Some (Returned (new_context,
                       BalanceResponse.mk id 0%float
                         [Str "Balance retrieved successfully"]), s').
Proof.
  intros Hty Hs s'.
  assert (Hs' : stored s' id = account ty 0) by exact (stored_hmset_new s id ty _).
  split; [|split; [exact Hs'|]].
  - rewrite run_CreateAccount. cbn [AccountRequest.account_id AccountRequest.account_type].
    rewrite bool_decide_eq_true_2 by exact Hty. cbn [negb].
    by rewrite (proj2 (exists_false_stored s id) Hs).
  - rewrite run_GetBalance. cbn. by rewrite Hs'.
Qed.

(** Creating "A1" in an empty store, then reading its balance. *)
Lemma CreateAccount_then_GetBalance_witness :
  run (GetBalance (AccountRequest.mk "A1" EmptyString) new_context)
    {| redis_client :=
         redis_hmset (key "A1") [account_type_is "savings"; balance_is 0%float]
           (redis_client no_accounts);
       account_locks := account_locks no_accounts |}
  = Some (Returned (new_context,
                    BalanceResponse.mk "A1" 0%float
                      [Str "Balance retrieved successfully"]),
          {| redis_client :=
               redis_hmset (key "A1") [account_type_is "savings"; balance_is 0%float]
                 (redis_client no_accounts);
             account_locks := account_locks no_accounts |}).
Proof.
  exact (proj2 (proj2 (CreateAccount_then_GetBalance no_accounts "A1" "savings" EmptyString
                         ltac:(by apply list_elem_of_here) eq_refl))).
Defined.

(** ** Failures and frames *)

Lemma run_handle (rq : request) (context : ServicerContext) (s : Servicer) :
  run (handle rq context) s =
  match rq with
  | CreateAccountCall r => relabel AccountReply (run (CreateAccount r context) s)
  | GetBalanceCall r => relabel BalanceReply (run (GetBalance r context) s)
  | DepositCall r => relabel TransactionReply (run (Deposit r context) s)
  | WithdrawCall r => relabel TransactionReply (run (Withdraw r context) s)
  | CalculateInterestCall r =>
      relabel TransactionReply (run (CalculateInterest r context) s)
  end.
Proof.
  destruct rq; cbn [handle]; rewrite run_bind; unfold relabel;
    by destruct (run _ s) as [[[[]|]]|].
Qed.

Ltac locked_inv H :=
  unfold locked_result in H;
  case_decide; [discriminate H|];
  destruct (h_account_type _), (h_balance _);
  cbn in H; try discriminate H.

(** C4. A call of any of the five operations that ends with a status code
    set leaves the whole store as it was; in particular a Deposit of a
    negative amount is refused with INVALID_ARGUMENT and changes nothing. *)
Theorem failure_leaves_store :
  (forall (rq : request) (s s' : Servicer) (context : ServicerContext)
          (reply : response) (c : StatusCode),
      run (handle rq new_context) s = Some (Returned (context, reply), s') ->
      code context = Some c ->
      redis_client s' = redis_client s)
  /\ (forall (id : string) (amount : float) (s : Servicer),
         (amount <? 0)%float = true ->
         run (Deposit (DepositRequest.mk id amount) new_context) s =
           Some (Returned (invalid_amount new_context, TransactionResponse.empty), s)).
Proof.
  split.
  - intros rq s s' context reply c Hrun Hc. rewrite run_handle in Hrun.
    destruct rq as [r|r|[id amount]|[id amount]|[id rate]].
    + rewrite run_CreateAccount in Hrun. cbn in Hrun.
      repeat case_match; simplify_eq/=; done.
    + rewrite run_GetBalance in Hrun. cbn in Hrun.
      repeat case_match; simplify_eq/=; done.
    + rewrite run_Deposit in Hrun.
      destruct (amount <=? 0)%float; [by simplify_eq/=|].
      locked_inv Hrun; by simplify_eq/=.
    + rewrite run_Withdraw in Hrun.
      destruct (amount <=? 0)%float; [by simplify_eq/=|].
      locked_inv Hrun; [|by simplify_eq/=].
      destruct (_ <? _)%float; by simplify_eq/=.
    + rewrite run_CalculateInterest in Hrun.
      destruct (rate <=? 0)%float; [by simplify_eq/=|].
      locked_inv Hrun; by simplify_eq/=.
  - intros id amount s Ha. by rewrite run_Deposit, (ltb_leb _ _ Ha).
Qed.

(** A withdrawal of 600 from 500 is refused and the store is as before. *)
Lemma failure_leaves_store_witness :
  redis_client (released "A1" (redis_client (one_account 500)) (one_account 500))
  = redis_client (one_account 500).
Proof.
  refine (proj1 failure_leaves_store
            (WithdrawCall (WithdrawRequest.mk "A1" 600)) (one_account 500) _
            (insufficient_funds new_context)
            (TransactionReply TransactionResponse.empty) FAILED_PRECONDITION _ eq_refl).
  rewrite run_handle, run_Withdraw.
  by rewrite (locked_result_account (one_account 500) "A1" "savings" 500)
    by auto using one_account_lock_free.
Defined.

(** C7, as stated, fails: CreateAccount on an identifier that has no record
    creates the account and sets no status code. *)
Lemma absent_id_is_not_always_NotFound :
  ~ (forall (rq : request) (s : Servicer),
        stored s (target rq) = empty_hash ->
        exists context reply s',
          run (handle rq new_context) s = Some (Returned (context, reply), s')
          /\ code context = Some NOT_FOUND).
Proof.
  intros H.
  destruct (H (CreateAccountCall (AccountRequest.mk "ZZZ" "savings")) no_accounts)
    as (context & reply & s' & Hrun & Hcode); [reflexivity|].
  vm_compute in Hrun. by simplify_eq.
Qed.

(** C7, amended. On an identifier that has no record: GetBalance answers
    NOT_FOUND; Deposit, Withdraw and CalculateInterest answer NOT_FOUND when
    their amount or rate passes validation, and INVALID_ARGUMENT when it is
    not positive; CreateAccount never answers NOT_FOUND: it answers
    INVALID_ARGUMENT for a type other than savings and checking, and creates
    the account otherwise. *)
Theorem absent_id_NotFound (s : Servicer) (id : string) :
  stored s id = empty_hash ->
  (forall ty,
      run (GetBalance (AccountRequest.mk id ty) new_context) s =
        Some (Returned (not_found new_context, BalanceResponse.empty), s))
  /\ (forall amount,
         lock_free s id ->
         run (Deposit (DepositRequest.mk id amount) new_context) s =
           if (amount <=? 0)%float
           then Some (Returned (invalid_amount new_context,
                                TransactionResponse.empty), s)
           else Some (Returned (not_found new_context, TransactionResponse.empty),
                      released id (redis_client s) s))
  /\ (forall amount,
         lock_free s id ->
         run (Withdraw (WithdrawRequest.mk id amount) new_context) s =
           if (amount <=? 0)%float
           then Some (Returned (invalid_amount new_context,
                                TransactionResponse.empty), s)
           else Some (Returned (not_found new_context, TransactionResponse.empty),
                      released id (redis_client s) s))
  /\ (forall rate,
         lock_free s id ->
         run (CalculateInterest (InterestRequest.mk id rate) new_context) s =
           if (rate <=? 0)%float
           then Some (Returned (invalid_rate new_context,
                                TransactionResponse.empty), s)
           else Some (Returned (not_found new_context, TransactionResponse.empty),
                      released id (redis_client s) s))
  /\ (forall ty,
         exists context reply s',
           run (CreateAccount (AccountRequest.mk id ty) new_context) s =
             Some (Returned (context, reply), s')
           /\ code context =
                if bool_decide (ty ∈ ["savings"; "checking"]) then None
                else Some INVALID_ARGUMENT).
Proof.
  intros Hs. repeat split.
  - intros ty. rewrite run_GetBalance. cbn. by rewrite Hs.
  - intros amount Hl. rewrite run_Deposit.
    by rewrite (locked_result_absent s id).
  - intros amount Hl. rewrite run_Withdraw.
    by rewrite (locked_result_absent s id).
  - intros rate Hl. rewrite run_CalculateInterest.
    by rewrite (locked_result_absent s id).
  - intros ty. rewrite run_CreateAccount.
    cbn [AccountRequest.account_id AccountRequest.account_type].
    rewrite (proj2 (exists_false_stored s id) Hs).
    destruct (bool_decide _); cbn; eauto.
Qed.

(** GetBalance on the identifier "ZZZ", never created. *)
Lemma absent_id_NotFound_witness :
  run (GetBalance (AccountRequest.mk "ZZZ" EmptyString) new_context) no_accounts =
    Some (Returned (not_found new_context, BalanceResponse.empty), no_accounts).
Proof.
  exact (proj1 (absent_id_NotFound no_accounts "ZZZ" eq_refl) EmptyString).
Defined.

(** C8, as stated, fails: with a type other than savings and checking the
    call is refused with INVALID_ARGUMENT before the store is looked at. *)
Lemma CreateAccount_existing_is_not_always_AlreadyExists :
  ~ (forall (s : Servicer) (id ty : string),
        redis_exists (key id) (redis_client s) = true ->
        exists context reply s',
          run (CreateAccount (AccountRequest.mk id ty) new_context) s =
            Some (Returned (context, reply), s')
          /\ code context = Some ALREADY_EXISTS).
Proof.
  intros H.
  destruct (H (one_account 0) "A1" "gold")
    as (context & reply & s' & Hrun & Hcode); [reflexivity|].
  vm_compute in Hrun. by simplify_eq.
Qed.

Lemma hash_set_not_empty (fv : field_value) (h : hash) :
  is_empty_hash (hash_set fv h) = false.
Proof. destruct fv, h as [[?|] [?|]]; reflexivity. Qed.

Lemma exists_hset (k k' : string) (fv : field_value) (db : gmap string hash) :
  redis_exists k' db = true -> redis_exists k' (redis_hset k fv db) = true.
Proof.
  unfold redis_exists. destruct (decide (k = k')) as [->|Hne].
  - by rewrite hgetall_hset_eq, hash_set_not_empty.
  - by rewrite hgetall_hset_ne.
Qed.

Lemma exists_hmset (k k' : string) (fvs : list field_value) (db : gmap string hash) :
  redis_exists k' db = true -> redis_exists k' (redis_hmset k fvs db) = true.
Proof.
  unfold redis_exists, redis_hmset, redis_hgetall. intros H.
  destruct (decide (k = k')) as [->|Hne].
  - rewrite lookup_insert_eq. cbn.
    revert H. generalize (default empty_hash (db !! k')).
    induction fvs as [|fv fvs IH]; intros h Hh; cbn; [done|].
    apply IH. by rewrite hash_set_not_empty.
  - by rewrite lookup_insert_ne.
Qed.

(** C8, amended. On an identifier whose record exists, CreateAccount with the
    type savings or checking answers ALREADY_EXISTS, and with any other type
    answers INVALID_ARGUMENT; either way the state is left as it was.  A
    record that exists still exists after any call of any operation, so this
    holds whatever was applied to the identifier before. *)
Theorem CreateAccount_existing (s : Servicer) (id ty : string) :
  redis_exists (key id) (redis_client s) = true ->
  run (CreateAccount (AccountRequest.mk id ty) new_context) s =
    Some (Returned
            (if bool_decide (ty ∈ ["savings"; "checking"])
             then set_details "Account already exists"
                    (set_code ALREADY_EXISTS new_context)
             else set_details "Account type must be 'savings' or 'checking'"
                    (set_code INVALID_ARGUMENT new_context),
             AccountResponse.empty), s)
  /\ (forall (rq : request) (context : ServicerContext) o (s' : Servicer),
         run (handle rq context) s = Some (o, s') ->
         redis_exists (key id) (redis_client s') = true).
Proof.
  intros He. split.
  - rewrite run_CreateAccount.
    cbn [AccountRequest.account_id AccountRequest.account_type].
    rewrite He. by destruct (bool_decide _).
  - intros rq context o s' Hrun. rewrite run_handle in Hrun.
    destruct rq as [r|r|[id' amount]|[id' amount]|[id' rate]].
    + rewrite run_CreateAccount in Hrun. cbn in Hrun.
      repeat case_match; simplify_eq/=; auto using exists_hmset.
    + rewrite run_GetBalance in Hrun. cbn in Hrun.
      repeat case_match; by simplify_eq/=.
    + rewrite run_Deposit in Hrun.
      destruct (amount <=? 0)%float; [by simplify_eq/=|].
      unfold locked_result in Hrun. case_decide; [discriminate Hrun|].
      destruct (h_account_type _), (h_balance _); simplify_eq/=;
        auto using exists_hset.
    + rewrite run_Withdraw in Hrun.
      destruct (amount <=? 0)%float; [by simplify_eq/=|].
      unfold locked_result in Hrun. case_decide; [discriminate Hrun|].
      destruct (h_account_type _), (h_balance _) as [b|]; simplify_eq/=; auto.
      destruct (b <? amount)%float; simplify_eq/=; auto using exists_hset.
    + rewrite run_CalculateInterest in Hrun.
      destruct (rate <=? 0)%float; [by simplify_eq/=|].
      unfold locked_result in Hrun. case_decide; [discriminate Hrun|].
      destruct (h_account_type _), (h_balance _); simplify_eq/=;
        auto using exists_hset.
Qed.

(** Creating "A1" a second time. *)
Lemma CreateAccount_existing_witness :
  run (CreateAccount (AccountRequest.mk "A1" "checking") new_context) (one_account 0) =
    Some (Returned (set_details "Account already exists"
                      (set_code ALREADY_EXISTS new_context),
                    AccountResponse.empty), one_account 0).
Proof.
  exact (proj1 (CreateAccount_existing (one_account 0) "A1" "checking" eq_refl)).
Defined.

Lemma hset_balance_frame (k : string) (x : float) (db : gmap string hash) :
  h_account_type (redis_hgetall k (redis_hset k (balance_is x) db))
    = h_account_type (redis_hgetall k db)
  /\ h_balance (redis_hgetall k (redis_hset k (balance_is x) db)) = Some x
  /\ forall k', k' <> k -> redis_hset k (balance_is x) db !! k' = db !! k'.
Proof.
  rewrite hgetall_hset_eq. repeat split.
  intros k' Hne. unfold redis_hset. by rewrite lookup_insert_ne.
Qed.

(** C10. A successful Deposit, Withdraw or CalculateInterest on an account
    changes the store by one HSET of the balance field of that account, the
    value being the balance of the response: the account_type of the account
    and every other key of the store are as before.  GetBalance changes
    nothing of the servicer's state. *)
Theorem successful_update_writes_balance_only :
  (forall (rq : request) (s s' : Servicer) (context : ServicerContext)
          (reply : response),
      updates_balance rq ->
      run (handle rq new_context) s = Some (Returned (context, reply), s') ->
      code context = None ->
      exists r,
        reply = TransactionReply r
        /\ redis_client s' =
             redis_hset (key (target rq))
               (balance_is (TransactionResponse.balance r)) (redis_client s)
        /\ h_account_type (stored s' (target rq))
             = h_account_type (stored s (target rq))
        /\ (forall id', id' <> target rq -> stored s' id' = stored s id')
        /\ (forall k, k <> key (target rq) ->
              redis_client s' !! k = redis_client s !! k))
  /\ (forall (r : AccountRequest.t) (context : ServicerContext) (s s' : Servicer) o,
         run (GetBalance r context) s = Some (o, s') -> s' = s).
Proof.
  split.
  - intros rq s s' context reply Hrq Hrun Hc. rewrite run_handle in Hrun.
    assert (Hframe : forall r,
      reply = TransactionReply r ->
      redis_client s' =
        redis_hset (key (target rq)) (balance_is (TransactionResponse.balance r))
          (redis_client s) ->
      exists r,
        reply = TransactionReply r
        /\ redis_client s' =
             redis_hset (key (target rq))
               (balance_is (TransactionResponse.balance r)) (redis_client s)
        /\ h_account_type (stored s' (target rq))
             = h_account_type (stored s (target rq))
        /\ (forall id', id' <> target rq -> stored s' id' = stored s id')
        /\ (forall k, k <> key (target rq) ->
              redis_client s' !! k = redis_client s !! k)).
    { intros r Hr Hdb. exists r. split; [exact Hr|]. split; [exact Hdb|].
      unfold stored. rewrite Hdb.
      destruct (hset_balance_frame (key (target rq)) (TransactionResponse.balance r)
                  (redis_client s)) as (Hty & _ & Hother).
      split; [exact Hty|]. split; [|exact Hother].
      intros id' Hne. apply hgetall_hset_ne. intros Hk. by apply key_inj in Hk. }
    destruct rq as [r|r|[id amount]|[id amount]|[id rate]]; try done; cbn [target].
    + rewrite run_Deposit in Hrun.
      destruct (amount <=? 0)%float; [by simplify_eq/=|].
      locked_inv Hrun; simplify_eq/=. by eapply Hframe.
    + rewrite run_Withdraw in Hrun.
      destruct (amount <=? 0)%float; [by simplify_eq/=|].
      locked_inv Hrun; [|by simplify_eq/=].
      destruct (_ <? _)%float; simplify_eq/=. by eapply Hframe.
    + rewrite run_CalculateInterest in Hrun.
      destruct (rate <=? 0)%float; [by simplify_eq/=|].
      locked_inv Hrun; simplify_eq/=. by eapply Hframe.
  - intros r context s s' o Hrun. rewrite run_GetBalance in Hrun.
    by simplify_eq/=.
Qed.

(** The deposit of 1000 into 500 is one HSET of the balance 1500. *)
Lemma successful_update_writes_balance_only_witness :
  exists r,
    TransactionReply
      (TransactionResponse.mk "A1"
         [Str "Successfully deposited $"; Fixed 2 1000] 1500) = TransactionReply r
    /\ redis_client
         (released "A1"
            (redis_hset (key "A1") (balance_is 1500) (redis_client (one_account 500)))
            (one_account 500))
       = redis_hset (key "A1") (balance_is (TransactionResponse.balance r))
           (redis_client (one_account 500)).
Proof.
  destruct (proj1 successful_update_writes_balance_only
              (DepositCall (DepositRequest.mk "A1" 1000)) (one_account 500)
              (released "A1"
                 (redis_hset (key "A1") (balance_is 1500) (redis_client (one_account 500)))
                 (one_account 500))
              new_context
              (TransactionReply
                 (TransactionResponse.mk "A1"
                    [Str "Successfully deposited $"; Fixed 2 1000] 1500))
              I) as (r & Hr & Hdb & _); [|reflexivity|by exists r].
  rewrite run_handle, run_Deposit.
  by rewrite (locked_result_account (one_account 500) "A1" "savings" 500)
    by auto using one_account_lock_free.
Defined.

(** ** Non-negativity of the balance *)

(** C9 fails on the code: the test [amount <= 0] does not refuse a NaN
    amount.  On an account with the balance 0 (which is [>= 0]), Deposit of
    NaN succeeds and stores NaN, and [0 <= NaN] is false. *)
Lemma Deposit_nan_breaks_non_negativity :
  let s := one_account 0 in
  let s' := released "A1"
              (redis_hset (key "A1") (balance_is nan) (redis_client s)) s in
  stored s "A1" = account "savings" 0
  /\ (0 <=? 0)%float = true
  /\ run (Deposit (DepositRequest.mk "A1" nan) new_context) s =
       Some (Returned (new_context,
                       TransactionResponse.mk "A1"
                         [Str "Successfully deposited $"; Fixed 2 nan] nan), s')
  /\ stored s' "A1" = account "savings" nan
  /\ (0 <=? nan)%float = false.
Proof.
  cbv zeta. split; [reflexivity|]. split; [reflexivity|].
  split; [|split; reflexivity].
  rewrite run_Deposit.
  by rewrite (locked_result_account (one_account 0) "A1" "savings" 0).
Qed.

(** ** Interleaved deposits: the invariant *)

Lemma tally_insert (w : phase -> nat) (phs : list phase) (i : nat) (ph ph' : phase) :
  phs !! i = Some ph ->
  tally w (<[i := ph']> phs) + w ph = tally w phs + w ph'.
Proof.
  revert i. induction phs as [|x phs IH]; intros [|i] H; simplify_eq/=; [lia|].
  specialize (IH i H). lia.
Qed.

Lemma tally_lookup (w : phase -> nat) (phs : list phase) (i : nat) (ph : phase) :
  phs !! i = Some ph -> w ph <= tally w phs.
Proof.
  revert i. induction phs as [|x phs IH]; intros [|i] H; simplify_eq/=; [lia|].
  specialize (IH i H). lia.
Qed.

Lemma tally_two (w : phase -> nat) (phs : list phase) (i j : nat) (x y : phase) :
  i <> j -> phs !! i = Some x -> phs !! j = Some y -> w x + w y <= tally w phs.
Proof.
  revert i j. induction phs as [|z phs IH]; intros [|i] [|j] Hne Hi Hj;
    simplify_eq/=.
  - pose proof (tally_lookup w phs j y Hj). lia.
  - pose proof (tally_lookup w phs i x Hi). lia.
  - assert (w x + w y <= tally w phs); [|lia].
    apply (IH i j); auto.
Qed.

Lemma tally_pos (w : phase -> nat) (phs : list phase) :
  0 < tally w phs -> exists i ph, phs !! i = Some ph /\ 0 < w ph.
Proof.
  induction phs as [|x phs IH]; simpl; [lia|]. intros H.
  destruct (decide (0 < w x)) as [Hx|Hx].
  - by exists 0, x.
  - destruct IH as (i & ph & Hi & Hw); [lia|]. by exists (S i), ph.
Qed.

Lemma thread_of_Start (id : string) :
  thread_of id Start =
  Do (GetAccountLock id) (fun l => with_lock l (deposit_section id 1)).
Proof. reflexivity. Qed.

Lemma step_thread_phase (id ty : string) (s : Servicer) (ph : phase) (b : float) :
  stored s id = account ty b ->
  step_thread (thread_of id ph) s =
  match phase_step id s ph with
  | Some (s', ph') => Some (s', thread_of id ph')
  | None => None
  end.
Proof.
  intros Hs. destruct ph as [| | |b'|b'|b'].
  - rewrite thread_of_Start. cbn. by destruct (account_locks s !! id).
  - cbn. by destruct (account_locks s !! id) as [[]|].
  - cbn. unfold stored in Hs. rewrite Hs. cbn. fold (stored s id).
    unfold stored. rewrite Hs. reflexivity.
  - reflexivity.
  - cbn. by destruct (account_locks s !! id) as [[]|].
  - reflexivity.
Qed.

Ltac weigh Hi ph' :=
  match type of Hi with
  | ?phs !! ?i = Some ?ph =>
      pose proof (tally_insert wrote phs i ph ph' Hi);
      pose proof (tally_insert holds phs i ph ph' Hi);
      pose proof (tally_lookup holds phs i ph Hi)
  end; cbn [wrote holds] in *.

Ltac other_thread Hj i j :=
  destruct (decide (i = j)) as [<-|];
  [rewrite list_lookup_insert_eq in Hj by (by eapply lookup_lt_Some)
  |rewrite list_lookup_insert_ne in Hj by done].

Lemma phase_step_inv (id ty : string) (s s' : Servicer) (phs : list phase)
    (i : nat) (ph ph' : phase) :
  deposits_inv id ty s phs ->
  phs !! i = Some ph ->
  phase_step id s ph = Some (s', ph') ->
  deposits_inv id ty s' (<[i := ph']> phs) /\ steps_left ph = S (steps_left ph').
Proof.
  intros [Hbal Hread Hhold Hreg] Hi Hstep.
  destruct ph as [| | |b|b|b]; cbn in Hstep.
  - (* the lock is looked up, and created when it is not there *)
    simplify_eq. weigh Hi Waiting. split; [|done].
    assert (Hw : tally wrote (<[i := Waiting]> phs) = tally wrote phs) by lia.
    split.
    + rewrite Hw. by destruct (account_locks s !! id).
    + intros j b Hj. rewrite Hw. other_thread Hj i j; [congruence|eauto].
    + assert (Hh : tally holds (<[i := Waiting]> phs) = tally holds phs) by lia.
      rewrite Hh, Hhold.
      destruct (account_locks s !! id) as [l|] eqn:El; [by rewrite El|].
      cbn. rewrite lookup_insert_eq. by rewrite !decide_False.
    + intros Hnone. destruct (account_locks s !! id) eqn:El; [congruence|].
      cbn in Hnone. by rewrite lookup_insert_eq in Hnone.
  - (* the lock is acquired *)
    destruct (account_locks s !! id) as [[]|] eqn:El; simplify_eq.
    weigh Hi Reading. split; [|done].
    rewrite decide_False in Hhold by done.
    assert (Hw : tally wrote (<[i := Reading]> phs) = tally wrote phs) by lia.
    split.
    + by rewrite Hw.
    + intros j b Hj. rewrite Hw. other_thread Hj i j; [congruence|eauto].
    + cbn. rewrite lookup_insert_eq, decide_True by done. lia.
    + cbn. by rewrite lookup_insert_eq.
  - (* the record is read *)
    rewrite Hbal in Hstep. cbn in Hstep. simplify_eq.
    weigh Hi (Writing (sum_ones (tally wrote phs))). split; [|done].
    assert (Hw : tally wrote (<[i := Writing (sum_ones (tally wrote phs))]> phs)
                 = tally wrote phs) by lia.
    split.
    + by rewrite Hw.
    + intros j b Hj. rewrite Hw. other_thread Hj i j; [by simplify_eq|eauto].
    + rewrite <- Hhold. lia.
    + intros Hnone j ph Hj. specialize (Hreg Hnone i Reading Hi). done.
  - (* the new balance is written *)
    simplify_eq. weigh Hi (Releasing b). split; [|done].
    pose proof (Hread i b Hi) as ->.
    assert (Hw : tally wrote (<[i := Releasing (sum_ones (tally wrote phs))]> phs)
                 = S (tally wrote phs)) by lia.
    assert (Hone : tally holds phs = 1) by (case_decide; lia).
    split.
    + rewrite Hw. unfold stored. cbn [redis_client].
      rewrite hgetall_hset_eq. fold (stored s id). by rewrite Hbal.
    + intros j b Hj. other_thread Hj i j; [congruence|].
      pose proof (tally_two holds phs i j _ _ n Hi Hj). cbn in *. lia.
    + cbn [account_locks]. rewrite <- Hhold. lia.
    + intros Hnone j ph Hj. specialize (Hreg Hnone i _ Hi). done.
  - (* the lock is released *)
    destruct (account_locks s !! id) as [[]|] eqn:El; simplify_eq.
    weigh Hi (Finished b). split; [|done].
    rewrite decide_True in Hhold by done.
    assert (Hw : tally wrote (<[i := Finished b]> phs) = tally wrote phs) by lia.
    split.
    + by rewrite Hw.
    + intros j b' Hj. rewrite Hw. other_thread Hj i j; [congruence|eauto].
    + cbn. rewrite lookup_insert_eq, decide_False by done. lia.
    + cbn. by rewrite lookup_insert_eq.
  - done.
Qed.

(** A step of the pool of [Deposit(id, 1)] calls keeps the invariant and
    uses up one of the steps that are left. *)
Lemma step_at_inv (id ty : string) (s s' : Servicer) (phs : list phase) (i : nat)
    (pool' : list (prog (ServicerContext * TransactionResponse.t))) :
  deposits_inv id ty s phs ->
  step_at i (s, thread_of id <$> phs) = Some (s', pool') ->
  exists phs',
    pool' = thread_of id <$> phs'
    /\ deposits_inv id ty s' phs'
    /\ length phs' = length phs
    /\ tally steps_left phs = S (tally steps_left phs').
Proof.
  intros Hinv Hstep. unfold step_at in Hstep. cbn in Hstep.
  rewrite list_lookup_fmap in Hstep.
  destruct (phs !! i) as [ph|] eqn:Hi; [|done]. cbn in Hstep.
  rewrite (step_thread_phase id ty s ph _ (inv_balance _ _ _ _ Hinv)) in Hstep.
  destruct (phase_step id s ph) as [[s1 ph']|] eqn:Hph; simplify_eq.
  destruct (phase_step_inv id ty s s' phs i ph ph' Hinv Hi Hph) as [Hinv' Hleft].
  exists (<[i := ph']> phs). split; [by rewrite list_fmap_insert|].
  split; [done|]. split; [by rewrite length_insert|].
  pose proof (tally_insert steps_left phs i ph ph' Hi). lia.
Qed.

Lemma exec_inv (id ty : string) (schedule : list nat) (s s' : Servicer)
    (phs : list phase)
    (pool' : list (prog (ServicerContext * TransactionResponse.t))) :
  deposits_inv id ty s phs ->
  exec schedule (s, thread_of id <$> phs) = Some (s', pool') ->
  exists phs',
    pool' = thread_of id <$> phs'
    /\ deposits_inv id ty s' phs'
    /\ length phs' = length phs
    /\ tally steps_left phs = length schedule + tally steps_left phs'.
Proof.
  revert s phs. induction schedule as [|i schedule IH]; intros s phs Hinv Hexec.
  - cbn in Hexec. simplify_eq. by exists phs.
  - cbn [exec] in Hexec.
    destruct (step_at i _) as [[s1 pool1]|] eqn:Hstep; [|done].
    destruct (step_at_inv id ty s s1 phs i pool1 Hinv Hstep)
      as (phs1 & -> & Hinv1 & Hlen1 & Hleft1).
    destruct (IH s1 phs1 Hinv1 Hexec) as (phs' & -> & Hinv' & Hlen' & Hleft').
    exists phs'. split; [done|]. split; [done|].
    split; [congruence|cbn; lia].
Qed.

Lemma phase_step_step_at (id ty : string) (s s' : Servicer) (phs : list phase)
    (i : nat) (ph ph' : phase) :
  deposits_inv id ty s phs ->
  phs !! i = Some ph ->
  phase_step id s ph = Some (s', ph') ->
  step_at i (s, thread_of id <$> phs) = Some (s', thread_of id <$> <[i := ph']> phs).
Proof.
  intros Hinv Hi Hph. unfold step_at. cbn.
  rewrite list_lookup_fmap, Hi. cbn.
  rewrite (step_thread_phase id ty s ph _ (inv_balance _ _ _ _ Hinv)), Hph.
  by rewrite list_fmap_insert.
Qed.

Lemma holder_can_step (id ty : string) (s : Servicer) (phs : list phase)
    (i : nat) (ph : phase) :
  deposits_inv id ty s phs ->
  phs !! i = Some ph ->
  0 < holds ph ->
  is_Some (phase_step id s ph).
Proof.
  intros [Hbal Hread Hhold Hreg] Hi Hh.
  pose proof (tally_lookup holds phs i ph Hi).
  destruct ph; cbn in *; try lia; try done.
  - by rewrite Hbal.
  - case_decide as Hl; [by rewrite Hl|lia].
Qed.

(** No deadlock: while a call is unfinished, some thread can move. *)
Lemma deposits_progress (id ty : string) (s : Servicer) (phs : list phase)
    (i : nat) (ph : phase) :
  deposits_inv id ty s phs ->
  phs !! i = Some ph ->
  0 < steps_left ph ->
  exists j c, step_at j (s, thread_of id <$> phs) = Some c.
Proof.
  intros Hinv Hi Hleft.
  assert (Hgo : forall j ph, phs !! j = Some ph -> is_Some (phase_step id s ph) ->
                 exists j c, step_at j (s, thread_of id <$> phs) = Some c).
  { intros j ph0 Hj [[s' ph'] Hph]. exists j. eexists.
    by eapply phase_step_step_at. }
  destruct ph as [| | |b|b|b]; cbn in Hleft; try lia.
  - by eapply Hgo.
  - destruct (account_locks s !! id) as [[]|] eqn:El.
    + (* the lock is held: its holder can move *)
      pose proof (inv_holder _ _ _ _ Hinv) as Hhold.
      rewrite decide_True in Hhold by done.
      destruct (tally_pos holds phs) as (j & phj & Hj & Hpos); [lia|].
      eapply Hgo; [exact Hj|]. by eapply holder_can_step; [exact Hinv|exact Hj|].
    + eapply Hgo; [exact Hi|]. cbn. by rewrite El.
    + by pose proof (inv_registered _ _ _ _ Hinv El i _ Hi).
  - eapply Hgo; [exact Hi|]. eapply holder_can_step; [exact Hinv|exact Hi|cbn; lia].
  - eapply Hgo; [exact Hi|]. eapply holder_can_step; [exact Hinv|exact Hi|cbn; lia].
  - eapply Hgo; [exact Hi|]. eapply holder_can_step; [exact Hinv|exact Hi|cbn; lia].
Qed.

Lemma finished_thread_of (id : string) (ph : phase) :
  finished (thread_of id ph) = true -> exists b, ph = Finished b.
Proof. destruct ph; try discriminate; eauto. Qed.

Lemma tally_all_finished (phs : list phase) :
  Forall (fun ph => exists b, ph = Finished b) phs ->
  tally wrote phs = length phs /\ tally steps_left phs = 0.
Proof.
  induction 1 as [|ph phs [b ->] _ [IH1 IH2]]; simpl; [done|].
  split; [by rewrite IH1|done].
Qed.

Lemma tally_replicate (w : phase -> nat) (n : nat) (ph : phase) :
  tally w (replicate n ph) = n * w ph.
Proof. induction n as [|n IH]; simpl; [done|]. lia. Qed.

Lemma deposits_inv_initial (id ty : string) (s : Servicer) (n : nat) :
  stored s id = account ty 0 ->
  lock_free s id ->
  deposits_inv id ty s (replicate n Start).
Proof.
  intros Hs Hl. split.
  - by rewrite tally_replicate, Nat.mul_0_r.
  - intros i b Hi. apply lookup_replicate in Hi as [? _]. done.
  - rewrite tally_replicate, Nat.mul_0_r. by rewrite decide_False.
  - intros _ i ph Hi. by apply lookup_replicate in Hi as [? _].
Qed.

(** Every interleaving of [n] calls [Deposit(id, 1)] on an account with the
    balance 0: the schedule has at most [5 * n] steps; as long as a call is
    unfinished some thread can move; and when all calls are finished each has
    returned successfully and the stored balance is the sum of [n] ones. *)
Lemma concurrent_deposits (n : nat) (id ty : string) (s s' : Servicer)
    (schedule : list nat)
    (pool' : list (prog (ServicerContext * TransactionResponse.t))) :
  stored s id = account ty 0 ->
  lock_free s id ->
  exec schedule (s, replicate n (Deposit (DepositRequest.mk id 1) new_context))
    = Some (s', pool') ->
  length schedule <= 5 * n
  /\ (Forall (fun p => finished p = true) pool'
      \/ exists j c, step_at j (s', pool') = Some c)
  /\ (Forall (fun p => finished p = true) pool' ->
      length schedule = 5 * n
      /\ stored s' id = account ty (sum_ones n)
      /\ Forall (fun p => exists b, p = Ret (deposit_reply id 1 b)) pool').
Proof.
  intros Hs Hl Hexec.
  change (replicate n (Deposit (DepositRequest.mk id 1) new_context))
    with (replicate n (thread_of id Start)) in Hexec.
  rewrite <- fmap_replicate in Hexec.
  destruct (exec_inv id ty schedule s s' _ pool'
              (deposits_inv_initial id ty s n Hs Hl) Hexec)
    as (phs & -> & Hinv & Hlen & Hleft).
  rewrite tally_replicate in Hleft. cbn [steps_left] in Hleft.
  rewrite length_replicate in Hlen.
  split; [lia|]. split.
  - destruct (decide (Forall (fun ph => steps_left ph = 0) phs)) as [Hall|Hsome].
    + left. rewrite Forall_fmap. eapply Forall_impl; [exact Hall|].
      intros ph Hph. by destruct ph.
    + right. apply not_Forall_Exists in Hsome; [|intros ?; apply _].
      apply Exists_exists in Hsome as (ph & Hin & Hph).
      apply list_elem_of_lookup in Hin as [i Hi].
      eapply deposits_progress; [exact Hinv|exact Hi|]. cbn in Hph. lia.
  - intros Hfin. rewrite Forall_fmap in Hfin.
    assert (Hall : Forall (fun ph => exists b, ph = Finished b) phs).
    { eapply Forall_impl; [exact Hfin|]. intros ph. apply finished_thread_of. }
    destruct (tally_all_finished phs Hall) as [Hw Hz].
    split; [lia|]. split.
    + rewrite (inv_balance _ _ _ _ Hinv), Hw, Hlen. reflexivity.
    + rewrite Forall_fmap. eapply Forall_impl; [exact Hall|].
      intros ph [b ->]. by exists b.
Qed.

(** ** Sums of ones in binary64 *)

Section Binary64.

Local Open Scope Z_scope.

Lemma shl_S (n : nat) (p : positive) : shl (S n) p = xO (shl n p).
Proof. reflexivity. Qed.

Lemma shl_add (a b : nat) (p : positive) : shl a (shl b p) = shl (a + b) p.
Proof. unfold shl. symmetry. apply Nat.iter_add. Qed.

Lemma Zpos_shl (n : nat) (p : positive) : Zpos (shl n p) = Zpos p * 2 ^ Z.of_nat n.
Proof.
  induction n as [|n IH].
  - cbn. lia.
  - rewrite shl_S, (Pos2Z.inj_xO (shl n p)), IH, Nat2Z.inj_succ, Z.pow_succ_r by lia. lia.
Qed.

Lemma shl_plus (n : nat) (p q : positive) :
  Zpos (shl n p) + Zpos (shl n q) = Zpos (shl n (p + q)).
Proof. rewrite !Zpos_shl, Pos2Z.inj_add. lia. Qed.

Lemma digits_shl (n : nat) (p : positive) :
  Zpos (digits2_pos (shl n p)) = Zpos (digits2_pos p) + Z.of_nat n.
Proof.
  induction n as [|n IH].
  - cbn. lia.
  - rewrite shl_S. cbn [digits2_pos]. rewrite Pos2Z.inj_succ, IH. lia.
Qed.

Lemma digits_bounds (p : positive) :
  2 ^ (Zpos (digits2_pos p) - 1) <= Zpos p < 2 ^ Zpos (digits2_pos p).
Proof.
  induction p as [p IH|p IH|]; cbn [digits2_pos].
  - rewrite Pos2Z.inj_succ, (Pos2Z.inj_xI p).
    replace (Z.succ (Zpos (digits2_pos p)) - 1) with (Z.succ (Zpos (digits2_pos p) - 1)) by lia.
    rewrite !Z.pow_succ_r by lia. lia.
  - rewrite Pos2Z.inj_succ, (Pos2Z.inj_xO p).
    replace (Z.succ (Zpos (digits2_pos p)) - 1) with (Z.succ (Zpos (digits2_pos p) - 1)) by lia.
    rewrite !Z.pow_succ_r by lia. lia.
  - cbn. lia.
Qed.

Lemma digits_le_prec (p : positive) :
  Zpos p < 2 ^ 53 -> 1 <= Zpos (digits2_pos p) <= 53.
Proof.
  intros Hp. split; [lia|].
  destruct (Z_le_gt_dec (Zpos (digits2_pos p)) 53) as [|Hgt]; [done|].
  pose proof (digits_bounds p) as [Hlo _].
  assert (2 ^ 53 <= 2 ^ (Zpos (digits2_pos p) - 1)) by (apply Z.pow_le_mono_r; lia).
  lia.
Qed.

Lemma iter_pos_nat {A : Type} (f : A -> A) (k : positive) (x : A) :
  SpecFloat.iter_pos f k x = Nat.iter (Pos.to_nat k) f x.
Proof.
  revert x. induction k as [k IH|k IH|]; intros x; cbn [SpecFloat.iter_pos].
  - rewrite !IH, Pos2Nat.inj_xI. cbn [Nat.mul].
    rewrite Nat.add_0_r, <- Nat.iter_add, <- Nat.iter_succ_r. reflexivity.
  - rewrite !IH, Pos2Nat.inj_xO. cbn [Nat.mul].
    rewrite Nat.add_0_r, <- Nat.iter_add. reflexivity.
  - reflexivity.
Qed.

Lemma shr_1_shl (n : nat) (p : positive) :
  Nat.iter n shr_1 {| shr_m := Zpos (shl n p); shr_r := false; shr_s := false |}
  = {| shr_m := Zpos p; shr_r := false; shr_s := false |}.
Proof.
  induction n as [|n IH]; [reflexivity|].
  rewrite Nat.iter_succ_r, shl_S. cbn [shr_1 orb]. exact IH.
Qed.

Lemma shr_shl (n : Z) (p : positive) (e : Z) :
  0 <= n ->
  shr {| shr_m := Zpos (shl (Z.to_nat n) p); shr_r := false; shr_s := false |} e n
  = ({| shr_m := Zpos p; shr_r := false; shr_s := false |}, e + n).
Proof.
  intros Hn. destruct n as [|k|k]; [|clear Hn|lia].
  - cbn. f_equal. lia.
  - cbn [shr]. rewrite iter_pos_nat. cbn [Z.to_nat]. by rewrite shr_1_shl.
Qed.

Lemma fexp_normal (d e : Z) :
  d = 53 -> -1074 <= e -> fexp prec emax (d + e) = e.
Proof. intros -> He. unfold fexp, SpecFloat.emin, prec, emax. lia. Qed.

(** Rounding a 53-bit mantissa followed by [n] zero bits drops the zeros. *)
Lemma binary_round_aux_exact (s : bool) (m : positive) (e n : Z) :
  Zpos (digits2_pos m) = 53 ->
  0 <= n ->
  -1074 <= e + n <= 971 ->
  binary_round_aux prec emax s (Zpos (shl (Z.to_nat n) m)) e loc_Exact
  = S754_finite s m (e + n).
Proof.
  intros Hd Hn He. unfold binary_round_aux, shr_fexp.
  cbn [Zdigits2 shr_record_of_loc].
  rewrite digits_shl, Z2Nat.id by lia.
  replace (Zpos (digits2_pos m) + n + e) with (Zpos (digits2_pos m) + (e + n)) by lia.
  rewrite fexp_normal by lia.
  replace (e + n - e) with n by lia.
  rewrite shr_shl by lia.
  cbn [shr_m loc_of_shr_record round_nearest_even Zdigits2 shr_record_of_loc].
  rewrite fexp_normal by lia.
  rewrite Z.sub_diag. cbn [shr shr_m].
  unfold prec, emax. by rewrite Zle_imp_le_bool by lia.
Qed.

Lemma shl_align_down (m : positive) (e e' : Z) :
  e' <= e -> shl_align m e e' = (shl (Z.to_nat (e - e')) m, if decide (e' = e) then e else e').
Proof.
  intros He. unfold shl_align.
  destruct (e' - e) as [|k|k] eqn:Hk; [|lia|].
  - replace (e - e') with 0 by lia. rewrite decide_True by lia. reflexivity.
  - replace (e - e') with (Zpos k) by lia. rewrite decide_False by lia.
    cbn [Z.to_nat]. unfold shl. by rewrite Pos2Nat.inj_iter.
Qed.

Lemma shl_align_up (m : positive) (e e' : Z) :
  e <= e' -> shl_align m e e' = (m, e).
Proof.
  intros He. unfold shl_align. destruct (e' - e) as [|k|k] eqn:Hk; [done|done|lia].
Qed.

(** Adding 1 to an integer below [2^53 - 1] is exact. *)
Lemma SF_of_pos_succ (p : positive) :
  Zpos p + 1 < 2 ^ 53 ->
  SF64add (SF_of_pos p) (SF_of_pos 1) = SF_of_pos (p + 1).
Proof.
  intros Hp.
  pose proof (digits_le_prec p ltac:(lia)) as Hd.
  pose proof (digits_le_prec (p + 1) ltac:(lia)) as Hd'.
  change (SF_of_pos 1) with (S754_finite false (shl 52 1) (-52)).
  unfold SF64add, SFadd, SF_of_pos at 1.
  rewrite Z.min_r by (unfold prec; lia).
  rewrite shl_align_down by (unfold prec; lia).
  rewrite shl_align_down by lia.
  cbn [fst cond_Zopp]. rewrite shl_add.
  replace (Z.to_nat (Zpos (digits2_pos p) - prec - -52)
           + Z.to_nat (prec - Zpos (digits2_pos p)))%nat with 52%nat
    by (unfold prec; lia).
  change (Z.to_nat (-52 - -52)) with 0%nat.
  change (shl 0 (shl 52 1)) with (shl 52 1).
  rewrite shl_plus. cbn [binary_normalize]. unfold binary_round.
  rewrite digits_shl.
  replace (Zpos (digits2_pos (p + 1)) + Z.of_nat 52 + -52)
    with (Zpos (digits2_pos (p + 1))) by lia.
  assert (Hf : fexp prec emax (Zpos (digits2_pos (p + 1)))
               = Zpos (digits2_pos (p + 1)) - 53).
  { unfold fexp, SpecFloat.emin, prec, emax. lia. }
  rewrite Hf, shl_align_up by lia.
  unfold SF_of_pos.
  set (d := Zpos (digits2_pos (p + 1))) in *.
  replace 52%nat with (Z.to_nat (d - 1) + Z.to_nat (prec - d))%nat
    by (unfold prec; lia).
  rewrite <- shl_add.
  rewrite binary_round_aux_exact.
  - f_equal. unfold prec. lia.
  - rewrite digits_shl. fold d. unfold prec. lia.
  - lia.
  - lia.
Qed.

Lemma sum_ones_S (n : nat) : sum_ones (S n) = (sum_ones n + 1)%float.
Proof. reflexivity. Qed.

Lemma Prim2SF_one : Prim2SF 1 = SF_of_pos 1.
Proof. reflexivity. Qed.

Lemma Prim2SF_sum_ones (n : nat) :
  Z.of_nat (S n) < 2 ^ 53 ->
  Prim2SF (sum_ones (S n)) = SF_of_pos (Pos.of_succ_nat n).
Proof.
  induction n as [|n IH]; intros Hn.
  - reflexivity.
  - rewrite sum_ones_S, add_spec, IH, Prim2SF_one by lia.
    rewrite SF_of_pos_succ by lia.
    f_equal. cbn [Pos.of_succ_nat]. lia.
Qed.

Lemma is_integer_SF_of_pos (x : float) (p : positive) :
  Zpos p < 2 ^ 53 ->
  Prim2SF x = SF_of_pos p ->
  is_integer x (Zpos p) = true.
Proof.
  intros Hp Hx. pose proof (digits_le_prec p Hp) as Hd.
  unfold is_integer. rewrite Hx. unfold SF_of_pos. cbn [cond_Zopp].
  rewrite Zpos_shl, Z2Nat.id by (unfold prec; lia).
  rewrite Z.max_r by (unfold prec; lia).
  rewrite Z.max_l by (unfold prec; lia).
  rewrite Z.pow_0_r, Z.mul_1_r. apply Z.eqb_eq. do 2 f_equal. lia.
Qed.

(** The sum of [n] ones is the integer [n] as long as [n <= 2^53]. *)
Lemma sum_ones_exact (n : nat) :
  Z.of_nat n <= 2 ^ 53 -> is_integer (sum_ones n) (Z.of_nat n) = true.
Proof.
  intros Hn. destruct n as [|n]; [reflexivity|].
  destruct (decide (Z.of_nat (S n) = 2 ^ 53)) as [Heq|Hne].
  - destruct n as [|n]; [done|].
    assert (Hp : Pos.of_succ_nat n = 9007199254740991%positive) by lia.
    unfold is_integer.
    rewrite sum_ones_S, add_spec, Prim2SF_sum_ones, Hp by lia.
    rewrite Heq. reflexivity.
  - replace (Z.of_nat (S n)) with (Zpos (Pos.of_succ_nat n)) by lia.
    apply is_integer_SF_of_pos; [lia|]. apply Prim2SF_sum_ones. lia.
Qed.

(** From [2^53] on, adding 1 changes nothing. *)
Lemma sum_ones_saturates (n : nat) :
  2 ^ 53 <= Z.of_nat n -> sum_ones n = 9007199254740992%float.
Proof.
  induction n as [|n IH]; intros Hn; [lia|].
  rewrite sum_ones_S.
  destruct (decide (Z.of_nat (S n) = 2 ^ 53)) as [Heq|Hne].
  - destruct n as [|n]; [done|].
    assert (Hp : Pos.of_succ_nat n = 9007199254740991%positive) by lia.
    apply Prim2SF_inj. rewrite add_spec, Prim2SF_sum_ones, Hp by lia.
    reflexivity.
  - rewrite IH by lia. reflexivity.
Qed.

End Binary64.

(** ** Concurrent deposits *)

(** From any state of the calls some interleaving finishes them all. *)
Lemma deposits_complete (id ty : string) (m : nat) :
  forall (s : Servicer) (phs : list phase),
    tally steps_left phs = m ->
    deposits_inv id ty s phs ->
    exists schedule s' pool',
      exec schedule (s, thread_of id <$> phs) = Some (s', pool')
      /\ Forall (fun p => finished p = true) pool'.
Proof.
  induction m as [|m IH]; intros s phs Hm Hinv.
  - exists [], s, (thread_of id <$> phs). split; [done|].
    rewrite Forall_fmap. apply Forall_lookup_2. intros i ph Hi.
    pose proof (tally_lookup steps_left phs i ph Hi). by destruct ph; cbn in *; try lia.
  - destruct (tally_pos steps_left phs) as (i & ph & Hi & Hleft); [lia|].
    destruct (deposits_progress id ty s phs i ph Hinv Hi Hleft) as (j & [s1 pool1] & Hstep).
    destruct (step_at_inv id ty s s1 phs j pool1 Hinv Hstep)
      as (phs1 & -> & Hinv1 & _ & Hleft1).
    destruct (IH s1 phs1 ltac:(lia) Hinv1) as (schedule & s' & pool' & Hexec & Hfin).
    exists (j :: schedule), s', pool'. split; [|done].
    cbn [exec]. by rewrite Hstep.
Qed.

(** C5, amended. [n] concurrent calls [Deposit(id, 1)] on an account created
    with the balance 0, under every interleaving of their atomic steps: the
    interleaving has at most [5 * n] steps; while a call is unfinished some
    thread can move; and once all calls are finished, each has returned
    successfully and no update is lost: the stored balance is exactly [n]
    when [n <= 2^53], and is the float [2^53] when [n] is larger. *)
Theorem concurrent_Deposits_serialized (n : nat) (id ty : string)
    (s s' : Servicer) (schedule : list nat)
    (pool' : list (prog (ServicerContext * TransactionResponse.t))) :
  stored s id = account ty 0 ->
  lock_free s id ->
  exec schedule (s, replicate n (Deposit (DepositRequest.mk id 1) new_context))
    = Some (s', pool') ->
  length schedule <= 5 * n
  /\ (Forall (fun p => finished p = true) pool'
      \/ exists j c, step_at j (s', pool') = Some c)
  /\ (Forall (fun p => finished p = true) pool' ->
      Forall (fun p => exists b, p = Ret (deposit_reply id 1 b)) pool'
      /\ exists b,
           stored s' id = account ty b
           /\ ((Z.of_nat n <= 2 ^ 53)%Z -> is_integer b (Z.of_nat n) = true)
           /\ ((2 ^ 53 <= Z.of_nat n)%Z -> b = 9007199254740992%float)).
Proof.
  intros Hs Hl Hexec.
  destruct (concurrent_deposits n id ty s s' schedule pool' Hs Hl Hexec)
    as (Hlen & Hprogress & Hdone).
  split; [exact Hlen|]. split; [exact Hprogress|].
  intros Hfin. destruct (Hdone Hfin) as (_ & Hbal & Hret).
  split; [exact Hret|]. exists (sum_ones n).
  split; [exact Hbal|]. split; [apply sum_ones_exact|apply sum_ones_saturates].
Qed.

(** Two calls, the second one waiting for the lock until the first has
    released it. *)
Lemma concurrent_Deposits_serialized_witness :
  exists s' pool' b,
    exec [0; 1; 0; 0; 0; 0; 1; 1; 1; 1]%nat
      (one_account 0, replicate 2 (Deposit (DepositRequest.mk "A1" 1) new_context))
      = Some (s', pool')
    /\ stored s' "A1" = account "savings" b
    /\ is_integer b 2 = true.
Proof.
  destruct (exec [0; 1; 0; 0; 0; 0; 1; 1; 1; 1]%nat
              (one_account 0,
               replicate 2 (Deposit (DepositRequest.mk "A1" 1) new_context)))
    as [[s' pool']|] eqn:Hexec; [|vm_compute in Hexec; discriminate Hexec].
  destruct (concurrent_Deposits_serialized 2 "A1" "savings" (one_account 0) s'
              [0; 1; 0; 0; 0; 0; 1; 1; 1; 1]%nat pool' eq_refl
              (one_account_lock_free 0) Hexec) as (_ & _ & Hdone).
  assert (Hfin : Forall (fun p => finished p = true) pool').
  { vm_compute in Hexec. injection Hexec as _ <-. by repeat constructor. }
  destruct (Hdone Hfin) as (_ & b & Hb & Hexact & _).
  exists s', pool', b. split; [reflexivity|]. split; [exact Hb|].
  apply Hexact. done.
Defined.

(** A thread that waits for the lock cannot be scheduled: this is no
    interleaving. *)
Lemma blocked_thread_cannot_move :
  exec [0; 1; 0; 1]%nat
    (one_account 0, replicate 2 (Deposit (DepositRequest.mk "A1" 1) new_context))
  = None.
Proof. vm_compute. reflexivity. Qed.

(** Past [2^53] calls, some interleaving finishes them all, and the stored
    balance is the float [2^53]. *)
Lemma finished_balance_beyond_2_53 (n : nat) :
  (2 ^ 53 < Z.of_nat n)%Z ->
  exists schedule s' pool',
    exec schedule
      (one_account 0, replicate n (Deposit (DepositRequest.mk "A1" 1) new_context))
      = Some (s', pool')
    /\ Forall (fun p => finished p = true) pool'
    /\ stored s' "A1" = account "savings" 9007199254740992.
Proof.
  intros Hn.
  assert (Hs : stored (one_account 0) "A1" = account "savings" 0) by reflexivity.
  assert (Hl : lock_free (one_account 0) "A1") by (by vm_compute).
  destruct (deposits_complete "A1" "savings" _ (one_account 0) (replicate n Start)
              eq_refl (deposits_inv_initial "A1" "savings" _ n Hs Hl))
    as (schedule & s' & pool' & Hexec & Hfin).
  rewrite fmap_replicate in Hexec.
  change (thread_of "A1" Start)
    with (Deposit (DepositRequest.mk "A1" 1) new_context) in Hexec.
  exists schedule, s', pool'. split; [exact Hexec|]. split; [exact Hfin|].
  destruct (concurrent_deposits n "A1" "savings" _ s' schedule pool'
              Hs Hl Hexec) as (_ & _ & Hdone).
  destruct (Hdone Hfin) as (_ & Hb & _).
  rewrite Hb. f_equal. apply sum_ones_saturates. lia.
Qed.

Lemma not_integer_2_53_plus_1 :
  is_integer 9007199254740992 9007199254740993 = false.
Proof. reflexivity. Qed.

(** C5, as stated for every [n], fails: after [2^53 + 1] deposits of 1 the
    stored balance is the float [2^53], which is not the integer [2^53 + 1]. *)
Lemma concurrent_Deposits_not_exact_beyond_2_53 :
  ~ (forall (n : nat) (schedule : list nat) (s' : Servicer)
            (pool' : list (prog (ServicerContext * TransactionResponse.t))),
        exec schedule
          (one_account 0, replicate n (Deposit (DepositRequest.mk "A1" 1) new_context))
          = Some (s', pool') ->
        Forall (fun p => finished p = true) pool' ->
        exists b,
          stored s' "A1" = account "savings" b
          /\ is_integer b (Z.of_nat n) = true).
Proof.
  intros Hclaim.
  pose proof (Z2Nat.id 9007199254740993 ltac:(done)) as Hz.
  destruct (finished_balance_beyond_2_53 (Z.to_nat 9007199254740993))
    as (schedule & s' & pool' & Hexec & Hfin & Hb).
  { rewrite Hz. done. }
  destruct (Hclaim _ schedule s' pool' Hexec Hfin) as (b & Hb' & Hint).
  rewrite Hz in Hint. rewrite Hb in Hb'. injection Hb' as <-.
  rewrite not_integer_2_53_plus_1 in Hint. discriminate Hint.
Qed.

(** * Further properties of the servicer *)

(** ** What a call touches *)

Lemma stored_apply_effect_ne (id id' : string) (e : effect) (s : Servicer) :
  id <> id' -> stored (apply_effect id e s) id' = stored s id'.
Proof.
  intros Hne. unfold stored, apply_effect. cbn [redis_client].
  destruct (put_hash e); [|reflexivity].
  unfold redis_hgetall. rewrite lookup_insert_ne; [reflexivity|].
  intros Hk. by apply key_inj in Hk.
Qed.

Lemma locks_apply_effect_ne (id id' : string) (e : effect) (s : Servicer) :
  id <> id' ->
  account_locks (apply_effect id e s) !! id' = account_locks s !! id'.
Proof.
  intros Hne. unfold apply_effect. cbn [account_locks].
  destruct (put_lock e); [|reflexivity]. by rewrite lookup_insert_ne.
Qed.

Lemma apply_effect_commute (id1 id2 : string) (e1 e2 : effect) (s : Servicer) :
  id1 <> id2 ->
  apply_effect id1 e1 (apply_effect id2 e2 s)
  = apply_effect id2 e2 (apply_effect id1 e1 s).
Proof.
  intros Hne. unfold apply_effect. cbn [redis_client account_locks].
  assert (Hk : key id1 <> key id2) by (intros Hk; by apply key_inj in Hk).
  f_equal.
  - destruct (put_hash e1), (put_hash e2); try reflexivity.
    by apply insert_insert_ne.
  - destruct (put_lock e1), (put_lock e2); try reflexivity.
    by apply insert_insert_ne.
Qed.

(** The store a locked handler leaves: the record of the account rewritten
    with the balance [w], or nothing written. *)
Lemma locked_result_local {R : Type} (s1 s2 s1' : Servicer) (id : string)
    (missing : R) (found1 found2 : string -> float -> outcome R * gmap string hash)
    (o : outcome R) :
  locked_result s1 id missing found1 = Some (o, s1') ->
  stored s2 id = stored s1 id ->
  account_locks s2 !! id = account_locks s1 !! id ->
  (forall ty b,
      h_account_type (stored s1 id) = Some ty ->
      (found1 ty b).1 = (found2 ty b).1
      /\ exists w : option float,
           (found1 ty b).2 =
             match w with
             | Some x => redis_hset (key id) (balance_is x) (redis_client s1)
             | None => redis_client s1
             end
           /\ (found2 ty b).2 =
                match w with
                | Some x => redis_hset (key id) (balance_is x) (redis_client s2)
                | None => redis_client s2
                end) ->
  exists e,
    s1' = apply_effect id e s1
    /\ put_lock e = Some false
    /\ locked_result s2 id missing found2 = Some (o, apply_effect id e s2).
Proof.
  intros Hrun Hh Hl Hfound. unfold locked_result in *.
  rewrite Hh, Hl. case_decide; [discriminate Hrun|].
  destruct (h_account_type (stored s1 id)) as [ty|] eqn:Hty,
           (h_balance (stored s1 id)) as [b|] eqn:Hb; simplify_eq/=;
    try (by exists {| put_hash := None; put_lock := Some false |}).
  destruct (Hfound ty b eq_refl) as (Ho & [x|] & Hw1 & Hw2).
  - exists {| put_hash := Some (hash_set (balance_is x) (stored s1 id));
              put_lock := Some false |}.
    unfold released, apply_effect. cbn. rewrite Hw1, Hw2, Ho.
    unfold redis_hset. fold (stored s1 id) (stored s2 id). by rewrite Hh.
  - exists {| put_hash := None; put_lock := Some false |}.
    unfold released, apply_effect. cbn. by rewrite Hw1, Hw2, Ho.
Qed.

Lemma relabel_Some {A B : Type} (f : A -> B)
    (r : option (outcome (ServicerContext * A) * Servicer))
    (o : outcome (ServicerContext * B)) (s' : Servicer) :
  relabel f r = Some (o, s') ->
  exists o0,
    r = Some (o0, s')
    /\ forall s'', relabel f (Some (o0, s'')) = Some (o, s'').
Proof.
  destruct r as [[[out|e] s0]|]; cbn; intros H; simplify_eq; eauto.
Qed.

Lemma apply_effect_none (id : string) (s : Servicer) :
  apply_effect id {| put_hash := None; put_lock := None |} s = s.
Proof. by destruct s. Qed.

Ltac no_effect Hre :=
  exists {| put_hash := None; put_lock := None |};
  rewrite !apply_effect_none;
  split; [reflexivity|split; [reflexivity|exact (Hre _)]].

(** A call reads and writes the record and the lock of the account it names,
    and nothing else: run in a state that agrees on these two, it gives the
    same outcome and leaves the same effect. *)
Lemma handle_local (rq : request) (context : ServicerContext)
    (s1 s2 s1' : Servicer) (o : outcome (ServicerContext * response)) :
  run (handle rq context) s1 = Some (o, s1') ->
  stored s2 (target rq) = stored s1 (target rq) ->
  account_locks s2 !! target rq = account_locks s1 !! target rq ->
  exists e,
    s1' = apply_effect (target rq) e s1
    /\ put_lock e = (if takes_lock rq then Some false else None)
    /\ run (handle rq context) s2 = Some (o, apply_effect (target rq) e s2).
Proof.
  intros Hrun Hh Hl. rewrite !run_handle in *.
  destruct rq as [[id ty]|[id ty]|[id amount]|[id amount]|[id rate]];
    cbn [target takes_lock AccountRequest.account_id DepositRequest.account_id
         DepositRequest.amount WithdrawRequest.account_id WithdrawRequest.amount
         InterestRequest.account_id InterestRequest.annual_interest_rate] in *;
    apply relabel_Some in Hrun as (o0 & Hrun & Hre).
  - rewrite run_CreateAccount in *. cbn in *.
    unfold redis_exists in *. fold (stored s1 id) (stored s2 id) in *.
    rewrite Hh.
    destruct (negb (bool_decide _)).
    { simplify_eq. no_effect Hre. }
    destruct (negb (is_empty_hash (stored s1 id))).
    { simplify_eq. no_effect Hre. }
    simplify_eq.
    exists {| put_hash := Some (account ty 0); put_lock := None |}.
    split; [reflexivity|split; [reflexivity|exact (Hre _)]].
  - rewrite run_GetBalance in *. cbn in *. rewrite Hh. simplify_eq.
    no_effect Hre.
  - rewrite run_Deposit in *. destruct (amount <=? 0)%float; cbn [negb].
    { simplify_eq. no_effect Hre. }
    eapply locked_result_local in Hrun as (e & -> & He & ->); [|done|done|].
    + exists e. split; [reflexivity|split; [exact He|exact (Hre _)]].
    + intros ty b _. split; [done|]. by exists (Some (b + amount)%float).
  - rewrite run_Withdraw in *. destruct (amount <=? 0)%float; cbn [negb].
    { simplify_eq. no_effect Hre. }
    eapply locked_result_local in Hrun as (e & -> & He & ->); [|done|done|].
    + exists e. split; [reflexivity|split; [exact He|exact (Hre _)]].
    + intros ty b _. cbn beta. destruct (b <? amount)%float.
      * split; [done|]. by exists None.
      * split; [done|]. by exists (Some (b - amount)%float).
  - rewrite run_CalculateInterest in *. destruct (rate <=? 0)%float; cbn [negb].
    { simplify_eq. no_effect Hre. }
    eapply locked_result_local in Hrun as (e & -> & He & ->); [|done|done|].
    + exists e. split; [reflexivity|split; [exact He|exact (Hre _)]].
    + intros ty b _. split; [done|].
      by exists (Some (b + b * (rate / 100))%float).
Qed.

Lemma stored_apply_effect_eq (id : string) (e : effect) (s : Servicer) :
  stored (apply_effect id e s) id = default (stored s id) (put_hash e).
Proof.
  unfold stored, apply_effect. cbn [redis_client].
  destruct (put_hash e); [|reflexivity].
  unfold redis_hgetall. by rewrite lookup_insert_eq.
Qed.

Lemma locks_apply_effect_eq (id : string) (e : effect) (s : Servicer) :
  account_locks (apply_effect id e s) !! id
  = match put_lock e with
    | Some b => Some b
    | None => account_locks s !! id
    end.
Proof.
  unfold apply_effect. cbn [account_locks].
  destruct (put_lock e); [|reflexivity]. by rewrite lookup_insert_eq.
Qed.

(** X1. A call reads and changes only the record and the lock of the account
    it names: the records and locks of all other accounts are as before, and
    in any other state that holds the same record and the same lock state
    for that account the call has the same outcome and leaves the same
    record and lock state. *)
Theorem call_touches_its_account_only (rq : request) (context : ServicerContext)
    (s1 s1' : Servicer) (o : outcome (ServicerContext * response)) :
  run (handle rq context) s1 = Some (o, s1') ->
  (forall id',
      id' <> target rq ->
      stored s1' id' = stored s1 id'
      /\ account_locks s1' !! id' = account_locks s1 !! id')
  /\ (forall s2,
         stored s2 (target rq) = stored s1 (target rq) ->
         account_locks s2 !! target rq = account_locks s1 !! target rq ->
         exists s2',
           run (handle rq context) s2 = Some (o, s2')
           /\ stored s2' (target rq) = stored s1' (target rq)
           /\ account_locks s2' !! target rq = account_locks s1' !! target rq).
Proof.
  intros Hrun. split.
  - intros id' Hne.
    destruct (handle_local rq context s1 s1 s1' o Hrun eq_refl eq_refl)
      as (e & -> & _ & _).
    split; [by apply stored_apply_effect_ne|by apply locks_apply_effect_ne].
  - intros s2 Hh Hl.
    destruct (handle_local rq context s1 s2 s1' o Hrun Hh Hl)
      as (e & -> & _ & Hrun2).
    eexists. split; [exact Hrun2|].
    rewrite !stored_apply_effect_eq, !locks_apply_effect_eq, Hh, Hl. done.
Qed.

(** Depositing into "A1" does not look at "B2". *)
Lemma call_touches_its_account_only_witness :
  stored
    (released "A1"
       (redis_hset (key "A1") (balance_is 1500) (redis_client (one_account 500)))
       (one_account 500)) "B2"
  = stored (one_account 500) "B2".
Proof.
  refine (proj1 (proj1 (call_touches_its_account_only
                          (DepositCall (DepositRequest.mk "A1" 1000)) new_context
                          (one_account 500) _ _ _) "B2" _)).
  - rewrite run_handle, run_Deposit.
    by rewrite (locked_result_account (one_account 500) "A1" "savings" 500)
      by auto using one_account_lock_free.
  - discriminate.
Defined.

(** X2. Calls on different accounts commute: served in either order they
    give the same outcomes and leave the same state. *)
Theorem calls_on_different_accounts_commute (rq1 rq2 : request) (s s' : Servicer)
    (o1 o2 : outcome (ServicerContext * response)) :
  target rq1 <> target rq2 ->
  serve_all [rq1; rq2] s = Some ([o1; o2], s') ->
  serve_all [rq2; rq1] s = Some ([o2; o1], s').
Proof.
  intros Hne Hserve. cbn [serve_all] in *.
  destruct (run (handle rq1 new_context) s) as [[o1' s1]|] eqn:H1; [|done].
  destruct (run (handle rq2 new_context) s1) as [[o2' s12]|] eqn:H2; [|done].
  simplify_eq.
  destruct (handle_local rq1 new_context s s s1 o1 H1 eq_refl eq_refl)
    as (e1 & -> & _ & _).
  destruct (handle_local rq2 new_context _ s _ o2 H2) as (e2 & -> & _ & H2').
  { symmetry. by apply stored_apply_effect_ne. }
  { symmetry. by apply locks_apply_effect_ne. }
  rewrite H2'.
  destruct (handle_local rq1 new_context s (apply_effect (target rq2) e2 s) _ o1 H1)
    as (e1' & He1 & _ & H1').
  { by apply stored_apply_effect_ne. }
  { by apply locks_apply_effect_ne. }
  rewrite H1'.
  rewrite (apply_effect_commute (target rq1) (target rq2)) by done.
  by rewrite <- He1.
Qed.

(** A deposit into "A1" and the creation of "B2", in both orders. *)
Lemma calls_on_different_accounts_commute_witness :
  exists o1 o2 s',
    serve_all [CreateAccountCall (AccountRequest.mk "B2" "checking");
               DepositCall (DepositRequest.mk "A1" 1000)] (one_account 500)
    = Some ([o2; o1], s')
    /\ stored s' "A1" = account "savings" 1500
    /\ stored s' "B2" = account "checking" 0.
Proof.
  destruct (serve_all [DepositCall (DepositRequest.mk "A1" 1000);
                       CreateAccountCall (AccountRequest.mk "B2" "checking")]
              (one_account 500)) as [[os s']|] eqn:Hserve;
    [|vm_compute in Hserve; discriminate Hserve].
  destruct os as [|o1 [|o2 [|o3 os]]];
    try (vm_compute in Hserve; discriminate Hserve).
  exists o1, o2, s'. split.
  - apply (calls_on_different_accounts_commute
             (DepositCall (DepositRequest.mk "A1" 1000))
             (CreateAccountCall (AccountRequest.mk "B2" "checking"))
             (one_account 500) s' o1 o2); [discriminate|exact Hserve].
  - vm_compute in Hserve. injection Hserve as _ _ <-. split; reflexivity.
Defined.

(** ** Waiting for a lock, and leaving it *)

(** A call that waits has passed its validation and has found the lock of
    its account held. *)
Lemma waiting_call_lock_held (rq : request) (context : ServicerContext)
    (s : Servicer) :
  run (handle rq context) s = None ->
  takes_lock rq = true /\ account_locks s !! target rq = Some true.
Proof.
  rewrite run_handle.
  destruct rq as [[id ty]|[id ty]|[id amount]|[id amount]|[id rate]];
    cbn [target takes_lock AccountRequest.account_id DepositRequest.account_id
         DepositRequest.amount WithdrawRequest.account_id WithdrawRequest.amount
         InterestRequest.account_id InterestRequest.annual_interest_rate].
  - rewrite run_CreateAccount. cbn. by repeat case_match.
  - rewrite run_GetBalance. cbn. by repeat case_match.
  - rewrite run_Deposit. destruct (amount <=? 0)%float; cbn [negb]; [done|].
    unfold locked_result. case_decide; [done|].
    destruct (h_account_type _), (h_balance _); cbn; try done; by case_match.
  - rewrite run_Withdraw. destruct (amount <=? 0)%float; cbn [negb]; [done|].
    unfold locked_result. case_decide; [done|].
    destruct (h_account_type _), (h_balance _); cbn; try done; by case_match.
  - rewrite run_CalculateInterest.
    destruct (rate <=? 0)%float; cbn [negb]; [done|].
    unfold locked_result. case_decide; [done|].
    destruct (h_account_type _), (h_balance _); cbn; try done; by case_match.
Qed.

(** A call that ends leaves every lock free that was free, its own
    included. *)
Lemma locks_stay_free (rq : request) (context : ServicerContext)
    (s s' : Servicer) (o : outcome (ServicerContext * response)) :
  run (handle rq context) s = Some (o, s') ->
  (forall l, lock_free s l) ->
  forall l, lock_free s' l.
Proof.
  intros Hrun Hfree l.
  destruct (handle_local rq context s s s' o Hrun eq_refl eq_refl)
    as (e & -> & He & _).
  unfold lock_free, apply_effect. cbn [account_locks]. rewrite He.
  destruct (takes_lock rq); [|apply Hfree].
  destruct (decide (target rq = l)) as [->|Hne].
  - by rewrite lookup_insert_eq.
  - rewrite lookup_insert_ne by done. apply Hfree.
Qed.

(** X3. A call waits exactly when it has passed its validation and the lock
    of its account is held: GetBalance, CreateAccount and a call refused for
    its amount or rate never wait, and a held lock of another account makes
    nobody wait. *)
Theorem call_waits_iff_lock_held (rq : request) (context : ServicerContext)
    (s : Servicer) :
  run (handle rq context) s = None
  <-> takes_lock rq = true /\ account_locks s !! target rq = Some true.
Proof.
  split; [apply waiting_call_lock_held|]. intros [Hv Hheld]. rewrite run_handle.
  destruct rq as [[id ty]|[id ty]|[id amount]|[id amount]|[id rate]];
    cbn [target takes_lock AccountRequest.account_id DepositRequest.account_id
         DepositRequest.amount WithdrawRequest.account_id WithdrawRequest.amount
         InterestRequest.account_id InterestRequest.annual_interest_rate] in *;
    try discriminate Hv; apply negb_true_iff in Hv.
  - rewrite run_Deposit, Hv. unfold locked_result. by rewrite decide_True.
  - rewrite run_Withdraw, Hv. unfold locked_result. by rewrite decide_True.
  - rewrite run_CalculateInterest, Hv. unfold locked_result.
    by rewrite decide_True.
Qed.

(** X4. The dictionary of locks after a call that has returned or raised: a
    call that took the lock leaves it in the dictionary and free, on every
    way out (also when the account does not exist, and when reading the
    record raises KeyError); every other lock is as before, and a call that
    takes no lock leaves the dictionary as it was. *)
Theorem lock_left_free (rq : request) (context : ServicerContext)
    (s s' : Servicer) (o : outcome (ServicerContext * response)) :
  run (handle rq context) s = Some (o, s') ->
  account_locks s' =
    if takes_lock rq then <[target rq := false]> (account_locks s)
    else account_locks s.
Proof.
  intros Hrun.
  destruct (handle_local rq context s s s' o Hrun eq_refl eq_refl)
    as (e & -> & He & _).
  unfold apply_effect. cbn [account_locks]. rewrite He.
  by destruct (takes_lock rq).
Qed.

(** A deposit into an account that does not exist: NOT_FOUND, and the lock of
    "ZZZ" is in the dictionary afterwards. *)
Lemma lock_left_free_witness :
  account_locks (released "ZZZ" (redis_client no_accounts) no_accounts)
  = <["ZZZ" := false]> (account_locks no_accounts).
Proof.
  refine (lock_left_free (DepositCall (DepositRequest.mk "ZZZ" 5)) new_context
            no_accounts _
            (Returned (not_found new_context,
                       TransactionReply TransactionResponse.empty)) _).
  rewrite run_handle, run_Deposit.
  rewrite (locked_result_absent no_accounts "ZZZ"); [reflexivity| |reflexivity].
  unfold lock_free. cbn. by rewrite lookup_empty.
Defined.

Lemma serve_all_length (rqs : list request) (s s' : Servicer)
    (os : list (outcome (ServicerContext * response))) :
  serve_all rqs s = Some (os, s') -> length os = length rqs.
Proof.
  revert s os. induction rqs as [|rq rqs IH]; intros s os H; cbn in H.
  - by simplify_eq.
  - destruct (run _ s) as [[o s1]|]; [|done].
    destruct (serve_all rqs s1) as [[os1 s2]|] eqn:Hrest; [|done].
    simplify_eq. cbn. f_equal. by eapply IH.
Qed.

(** X5. Served one after the other from a state in which no lock is held,
    the calls of any list all end (none waits, whatever they raise), and no
    lock is held at the end. *)
Theorem session_never_waits (rqs : list request) (s : Servicer) :
  (forall l, lock_free s l) ->
  exists os s',
    serve_all rqs s = Some (os, s')
    /\ length os = length rqs
    /\ forall l, lock_free s' l.
Proof.
  revert s. induction rqs as [|rq rqs IH]; intros s Hfree.
  - by exists [], s.
  - cbn [serve_all].
    destruct (run (handle rq new_context) s) as [[o s1]|] eqn:Hrun.
    + pose proof (locks_stay_free rq new_context s s1 o Hrun Hfree) as Hfree1.
      destruct (IH s1 Hfree1) as (os & s' & -> & Hlen & Hfree').
      exists (o :: os), s'. split; [done|]. split; [cbn; by rewrite Hlen|done].
    + apply waiting_call_lock_held in Hrun as [_ Hheld].
      by destruct (Hfree (target rq)).
Qed.

(** The example session of client.py, on a servicer that has just started
    with an empty store. *)
Lemma session_never_waits_witness :
  exists os s',
    serve_all [CreateAccountCall (AccountRequest.mk "123" "savings");
               DepositCall (DepositRequest.mk "123" 1000);
               GetBalanceCall (AccountRequest.mk "123" EmptyString);
               WithdrawCall (WithdrawRequest.mk "123" 500);
               CalculateInterestCall (InterestRequest.mk "123" 2.5)] (init ∅)
    = Some (os, s')
    /\ length os = 5.
Proof.
  destruct (session_never_waits
              [CreateAccountCall (AccountRequest.mk "123" "savings");
               DepositCall (DepositRequest.mk "123" 1000);
               GetBalanceCall (AccountRequest.mk "123" EmptyString);
               WithdrawCall (WithdrawRequest.mk "123" 500);
               CalculateInterestCall (InterestRequest.mk "123" 2.5)] (init ∅))
    as (os & s' & Hserve & Hlen & _).
  - intros l. unfold lock_free. cbn. by rewrite lookup_empty.
  - by exists os, s'.
Defined.

(** ** Records stay well formed *)

Lemma locked_result_record {R : Type} (s s' : Servicer) (id : string)
    (missing : R) (found : string -> float -> outcome R * gmap string hash)
    (o : outcome R) :
  locked_result s id missing found = Some (o, s') ->
  (forall ty b,
      is_returned (found ty b).1
      /\ ((found ty b).2 = redis_client s
          \/ exists x,
               (found ty b).2 = redis_hset (key id) (balance_is x) (redis_client s))) ->
  (stored s' id = stored s id
   \/ exists ty b x, stored s id = account ty b /\ stored s' id = account ty x)
  /\ ((stored s id = empty_hash \/ exists ty b, stored s id = account ty b) ->
      is_returned o).
Proof.
  intros Hrun Hfound. unfold locked_result in Hrun.
  case_decide; [discriminate Hrun|].
  destruct (stored s id) as [[ty|] [b|]] eqn:Hs; simplify_eq/=.
  - destruct (Hfound ty b) as [Hret [Hdb|[x Hdb]]]; rewrite Hdb.
    + split; [left|done]. exact Hs.
    + split; [right|done]. exists ty, b, x. split; [done|].
      rewrite stored_released, hgetall_hset_eq. fold (stored s id). by rewrite Hs.
  - split; [by left|]. intros [?|(?&?&?)]; by simplify_eq.
  - split; [by left|]. intros [?|(?&?&?)]; by simplify_eq.
  - split; [by left|done].
Qed.

(** The record of the account a call names, after the call: unchanged, or
    created with the balance 0, or the same account with another balance. *)
Lemma handle_record (rq : request) (context : ServicerContext)
    (s s' : Servicer) (o : outcome (ServicerContext * response)) :
  run (handle rq context) s = Some (o, s') ->
  (stored s' (target rq) = stored s (target rq)
   \/ (exists ty,
         ty ∈ ["savings"; "checking"]
         /\ stored s (target rq) = empty_hash
         /\ stored s' (target rq) = account ty 0)
   \/ exists ty b x,
        stored s (target rq) = account ty b /\ stored s' (target rq) = account ty x)
  /\ ((stored s (target rq) = empty_hash
       \/ exists ty b, stored s (target rq) = account ty b) ->
      is_returned o).
Proof.
  intros Hrun. rewrite run_handle in Hrun.
  destruct rq as [[id ty]|[id ty]|[id amount]|[id amount]|[id rate]];
    cbn [target AccountRequest.account_id DepositRequest.account_id
         WithdrawRequest.account_id InterestRequest.account_id] in *;
    apply relabel_Some in Hrun as (o0 & Hrun & Hre);
    specialize (Hre s'); cbn in Hre.
  - rewrite run_CreateAccount in Hrun. cbn in Hrun.
    destruct (bool_decide (ty ∈ ["savings"; "checking"])) eqn:Hty; cbn in Hrun.
    + destruct (redis_exists (key id) (redis_client s)) eqn:Hex; simplify_eq.
      * split; [by left|done].
      * split; [|done]. right. left. exists ty.
        apply bool_decide_eq_true_1 in Hty.
        split; [done|]. split; [by apply exists_false_stored|].
        apply stored_hmset_new.
    + simplify_eq. split; [by left|done].
  - rewrite run_GetBalance in Hrun. cbn in Hrun. simplify_eq.
    split; [by left|].
    intros [Hs|(ty0 & b & Hs)]; rewrite Hs in Hre; cbn in Hre; by simplify_eq.
  - rewrite run_Deposit in Hrun. destruct (amount <=? 0)%float.
    { simplify_eq. split; [by left|done]. }
    apply locked_result_record in Hrun as [Hrec Hret].
    + split; [destruct Hrec; auto|]. intros Hs. specialize (Hret Hs).
      destruct o0; by simplify_eq/=.
    + intros ty b. split; [done|]. right. by eexists.
  - rewrite run_Withdraw in Hrun. destruct (amount <=? 0)%float.
    { simplify_eq. split; [by left|done]. }
    apply locked_result_record in Hrun as [Hrec Hret].
    + split; [destruct Hrec; auto|]. intros Hs. specialize (Hret Hs).
      destruct o0; by simplify_eq/=.
    + intros ty b. cbn beta. destruct (b <? amount)%float.
      * split; [done|]. by left.
      * split; [done|]. right. by eexists.
  - rewrite run_CalculateInterest in Hrun. destruct (rate <=? 0)%float.
    { simplify_eq. split; [by left|done]. }
    apply locked_result_record in Hrun as [Hrec Hret].
    + split; [destruct Hrec; auto|]. intros Hs. specialize (Hret Hs).
      destruct o0; by simplify_eq/=.
    + intros ty b. split; [done|]. right. by eexists.
Qed.

Lemma handle_sound (rq : request) (context : ServicerContext)
    (s s' : Servicer) (o : outcome (ServicerContext * response)) :
  sound s ->
  run (handle rq context) s = Some (o, s') ->
  sound s' /\ is_returned o.
Proof.
  intros [Hrec Hfree] Hrun.
  destruct (handle_record rq context s s' o Hrun) as [Hcases Hret].
  assert (Hwf : stored s (target rq) = empty_hash
                \/ exists ty b, stored s (target rq) = account ty b).
  { destruct (Hrec (target rq)) as [?|(ty & b & ? & _)]; eauto. }
  split; [|by apply Hret]. split.
  - intros id. destruct (decide (id = target rq)) as [->|Hne].
    + destruct Hcases as [->|[(ty & Hty & _ & ->)|(ty & b & x & Hs & ->)]].
      * apply Hrec.
      * right. by exists ty, 0%float.
      * right. exists ty, x. split; [done|].
        destruct (Hrec (target rq)) as [He|(ty' & b' & He & Hty)].
        -- rewrite He in Hs. discriminate Hs.
        -- rewrite He in Hs. by simplify_eq.
    + destruct (handle_local rq context s s s' o Hrun eq_refl eq_refl)
        as (e & -> & _ & _).
      rewrite stored_apply_effect_ne by done. apply Hrec.
  - by apply (locks_stay_free rq context s s' o).
Qed.

Lemma init_empty_sound : sound (init ∅).
Proof.
  split.
  - intros id. left. unfold stored, redis_hgetall. cbn. by rewrite lookup_empty.
  - intros l. unfold lock_free. cbn. by rewrite lookup_empty.
Qed.

(** X6. From a state in which every record has both fields and a type of
    savings or checking, and no lock is held (the servicer started on an
    empty store is such a state), the calls of any list, served one after
    the other, all return: none waits, none raises KeyError, and the state
    at the end is again such a state. *)
Theorem session_keeps_records_sound (rqs : list request) (s : Servicer) :
  sound s ->
  exists os s',
    serve_all rqs s = Some (os, s')
    /\ Forall is_returned os
    /\ sound s'.
Proof.
  revert s. induction rqs as [|rq rqs IH]; intros s Hsound.
  - by exists [], s.
  - cbn [serve_all].
    destruct (run (handle rq new_context) s) as [[o s1']|] eqn:Hrun.
    2: { apply waiting_call_lock_held in Hrun as [_ Hheld].
         by destruct (proj2 Hsound (target rq)). }
    destruct (handle_sound rq new_context s s1' o Hsound Hrun) as [Hsound1 Hret].
    destruct (IH s1' Hsound1) as (os & s' & -> & Hall & Hsound').
    exists (o :: os), s'. split; [done|]. split; [by constructor|done].
Qed.

(** The example session of client.py on a servicer started on an empty
    store. *)
Lemma session_keeps_records_sound_witness :
  exists os s',
    serve_all [CreateAccountCall (AccountRequest.mk "123" "savings");
               DepositCall (DepositRequest.mk "123" 1000);
               GetBalanceCall (AccountRequest.mk "123" EmptyString);
               WithdrawCall (WithdrawRequest.mk "123" 500);
               CalculateInterestCall (InterestRequest.mk "123" 2.5)] (init ∅)
    = Some (os, s')
    /\ Forall is_returned os.
Proof.
  destruct (session_keeps_records_sound
              [CreateAccountCall (AccountRequest.mk "123" "savings");
               DepositCall (DepositRequest.mk "123" 1000);
               GetBalanceCall (AccountRequest.mk "123" EmptyString);
               WithdrawCall (WithdrawRequest.mk "123" 500);
               CalculateInterestCall (InterestRequest.mk "123" 2.5)] (init ∅)
              init_empty_sound)
    as (os & s' & Hserve & Hall & _).
  by exists os, s'.
Defined.




(** ** Exact amounts *)

Lemma ltb_irrefl (x : float) : (x <? x)%float = false.
Proof.
  rewrite ltb_spec. unfold SFltb.
  pose proof (SFcompare_antisym (Prim2SF x) (Prim2SF x)) as H.
  destruct (SFcompare (Prim2SF x) (Prim2SF x)) as [[]|]; cbn in H; congruence.
Qed.

(** A float above 0 and below infinity is a positive finite number. *)
Lemma positive_finite (x : float) :
  (0 <? x)%float = true ->
  (x <? infinity)%float = true ->
  exists m e, Prim2SF x = S754_finite false m e.
Proof.
  rewrite !ltb_spec. unfold SFltb.
  change (Prim2SF 0) with (S754_zero false).
  change (Prim2SF infinity) with (S754_infinity false).
  destruct (Prim2SF x) as [s|s| |s m e]; cbn; try done.
  - by destruct s.
  - destruct s; [done|]. eauto.
Qed.

Lemma add_zero_l (x : float) : (0 <? x)%float = true -> (0 + x)%float = x.
Proof.
  intros Hx. apply Prim2SF_inj. rewrite add_spec.
  rewrite ltb_spec in Hx. unfold SFltb in Hx.
  change (Prim2SF 0) with (S754_zero false) in *.
  by destruct (Prim2SF x) as [s|s| |s m e].
Qed.

Lemma sub_diag_finite (x : float) :
  (0 <? x)%float = true -> (x <? infinity)%float = true -> (x - x)%float = 0%float.
Proof.
  intros H0 Hinf. destruct (positive_finite x H0 Hinf) as (m & e & Hx).
  apply Prim2SF_inj. rewrite sub_spec, Hx.
  unfold SF64sub, SFsub. by rewrite Z.sub_diag.
Qed.

Lemma lock_free_released (id l : string) (db : gmap string hash) (s : Servicer) :
  lock_free s l -> lock_free (released id db s) l.
Proof.
  unfold lock_free, released. cbn. intros Hl.
  destruct (decide (id = l)) as [->|Hne].
  - by rewrite lookup_insert_eq.
  - by rewrite lookup_insert_ne.
Qed.

(** X8. A withdrawal of the whole balance is allowed (the test is
    [balance < amount]) and leaves exactly 0, for every balance that is
    positive and finite; after it, every withdrawal of a positive amount is
    refused with FAILED_PRECONDITION. *)
Theorem Withdraw_entire_balance (s : Servicer) (id ty : string) (b : float) :
  lock_free s id ->
  stored s id = account ty b ->
  (0 <? b)%float = true ->
  (b <? infinity)%float = true ->
  let s' := released id (redis_hset (key id) (balance_is 0) (redis_client s)) s in
  run (Withdraw (WithdrawRequest.mk id b) new_context) s =
    Some (Returned (new_context,
                    TransactionResponse.mk id
                      [Str "Successfully withdrew $"; Fixed 2 b] 0%float), s')
  /\ stored s' id = account ty 0
  /\ forall amount,
       (0 <? amount)%float = true ->
       run (Withdraw (WithdrawRequest.mk id amount) new_context) s' =
         Some (Returned (insufficient_funds new_context, TransactionResponse.empty),
               released id (redis_client s') s').
Proof.
  intros Hl Hs Hb Hfin s'.
  assert (Hs' : stored s' id = account ty 0)
    by exact (stored_hset_balance s id ty b _ Hs).
  split; [|split; [exact Hs'|]].
  - rewrite run_Withdraw, (ltb_leb_false _ _ Hb).
    rewrite (locked_result_account s id ty b) by assumption.
    rewrite ltb_irrefl. cbn. by rewrite (sub_diag_finite b Hb Hfin).
  - intros amount Ha.
    rewrite run_Withdraw, (ltb_leb_false _ _ Ha).
    rewrite (locked_result_account s' id ty 0);
      [|by apply lock_free_released|exact Hs'].
    by rewrite Ha.
Qed.

(** Withdrawing 500 from an account that holds 500. *)
Lemma Withdraw_entire_balance_witness :
  stored
    (released "A1"
       (redis_hset (key "A1") (balance_is 0) (redis_client (one_account 500)))
       (one_account 500)) "A1"
  = account "savings" 0.
Proof.
  exact (proj1 (proj2 (Withdraw_entire_balance (one_account 500) "A1" "savings" 500
                         (one_account_lock_free 500) eq_refl eq_refl eq_refl))).
Defined.

(** The state after CreateAccount has written the record. *)
Lemma run_handle_create (s : Servicer) (id ty : string) :
  ty ∈ ["savings"; "checking"] ->
  stored s id = empty_hash ->
  run (handle (CreateAccountCall (AccountRequest.mk id ty)) new_context) s =
    Some (Returned (new_context,
                    AccountReply
                      (AccountResponse.mk id
                         [Str "Account "; Str id; Str " created successfully"])),
          {| redis_client :=
               redis_hmset (key id) [account_type_is ty; balance_is 0%float]
                 (redis_client s);
             account_locks := account_locks s |}).
Proof.
  intros Hty Hs. rewrite run_handle, run_CreateAccount.
  cbn [AccountRequest.account_id AccountRequest.account_type].
  rewrite bool_decide_eq_true_2 by exact Hty. cbn [negb].
  by rewrite (proj2 (exists_false_stored s id) Hs).
Qed.

Lemma run_handle_balance (s : Servicer) (id ty ty' : string) (b : float) :
  stored s id = account ty b ->
  run (handle (GetBalanceCall (AccountRequest.mk id ty')) new_context) s =
    Some (Returned (new_context,
                    BalanceReply
                      (BalanceResponse.mk id b
                         [Str "Balance retrieved successfully"])), s).
Proof. intros Hs. rewrite run_handle, run_GetBalance. cbn. by rewrite Hs. Qed.

Lemma run_handle_deposit (s : Servicer) (id ty : string) (b amount : float) :
  lock_free s id ->
  stored s id = account ty b ->
  (0 <? amount)%float = true ->
  run (handle (DepositCall (DepositRequest.mk id amount)) new_context) s =
    Some (Returned (new_context,
                    TransactionReply
                      (TransactionResponse.mk id
                         [Str "Successfully deposited $"; Fixed 2 amount]
                         (b + amount)%float)),
          released id
            (redis_hset (key id) (balance_is (b + amount)) (redis_client s)) s).
Proof.
  intros Hl Hs Ha. rewrite run_handle, run_Deposit, (ltb_leb_false _ _ Ha).
  by rewrite (locked_result_account s id ty b).
Qed.

Lemma run_handle_withdraw (s : Servicer) (id ty : string) (b amount : float) :
  lock_free s id ->
  stored s id = account ty b ->
  (0 <? amount)%float = true ->
  (b <? amount)%float = false ->
  run (handle (WithdrawCall (WithdrawRequest.mk id amount)) new_context) s =
    Some (Returned (new_context,
                    TransactionReply
                      (TransactionResponse.mk id
                         [Str "Successfully withdrew $"; Fixed 2 amount]
                         (b - amount)%float)),
          released id
            (redis_hset (key id) (balance_is (b - amount)) (redis_client s)) s).
Proof.
  intros Hl Hs Ha Hb. rewrite run_handle, run_Withdraw, (ltb_leb_false _ _ Ha).
  rewrite (locked_result_account s id ty b) by assumption. by rewrite Hb.
Qed.

(** X9. On a new account the amounts are exact: after CreateAccount, a
    deposit of a positive finite amount [a] makes the balance exactly [a]
    (GetBalance returns [a]), and withdrawing [a] again makes it exactly
    0. *)
Theorem new_account_round_trip (s : Servicer) (id ty : string) (a : float) :
  ty ∈ ["savings"; "checking"] ->
  stored s id = empty_hash ->
  lock_free s id ->
  (0 <? a)%float = true ->
  (a <? infinity)%float = true ->
  exists o1 o2 o4 s',
    serve_all [CreateAccountCall (AccountRequest.mk id ty);
               DepositCall (DepositRequest.mk id a);
               GetBalanceCall (AccountRequest.mk id ty);
               WithdrawCall (WithdrawRequest.mk id a);
               GetBalanceCall (AccountRequest.mk id ty)] s
    = Some ([o1; o2;
             Returned (new_context,
                       BalanceReply
                         (BalanceResponse.mk id a
                            [Str "Balance retrieved successfully"]));
             o4;
             Returned (new_context,
                       BalanceReply
                         (BalanceResponse.mk id 0%float
                            [Str "Balance retrieved successfully"]))], s')
    /\ stored s' id = account ty 0.
Proof.
  intros Hty Hs Hl Ha Hfin. cbn [serve_all].
  rewrite run_handle_create by assumption.
  set (s1 := {| redis_client := _; account_locks := account_locks s |}).
  assert (Hs1 : stored s1 id = account ty 0) by apply stored_hmset_new.
  assert (Hl1 : lock_free s1 id) by exact Hl.
  rewrite (run_handle_deposit s1 id ty 0 a) by assumption.
  rewrite (add_zero_l a Ha).
  set (s2 := released id _ s1).
  assert (Hs2 : stored s2 id = account ty a)
    by exact (stored_hset_balance s1 id ty 0 _ Hs1).
  assert (Hl2 : lock_free s2 id) by (by apply lock_free_released).
  rewrite (run_handle_balance s2 id ty ty a) by assumption.
  rewrite (run_handle_withdraw s2 id ty a a)
    by (try assumption; apply ltb_irrefl).
  rewrite (sub_diag_finite a Ha Hfin).
  set (s3 := released id _ s2).
  assert (Hs3 : stored s3 id = account ty 0)
    by exact (stored_hset_balance s2 id ty a _ Hs2).
  rewrite (run_handle_balance s3 id ty ty 0) by assumption.
  by do 4 eexists.
Qed.

(** Creating "123", depositing 1000 and withdrawing 1000 again. *)
Lemma new_account_round_trip_witness :
  exists s', stored s' "123" = account "savings" 0.
Proof.
  destruct (new_account_round_trip (init ∅) "123" "savings" 1000)
    as (o1 & o2 & o4 & s' & _ & Hs').
  - by apply list_elem_of_here.
  - unfold stored, redis_hgetall. cbn. by rewrite lookup_empty.
  - unfold lock_free. cbn. by rewrite lookup_empty.
  - reflexivity.
  - reflexivity.
  - by exists s'.
Defined.

(** ** CreateAccount against concurrent calls *)

Lemma hgetall_hmset_account (k ty : string) (x : float) (db : gmap string hash) :
  redis_hgetall k (redis_hmset k [account_type_is ty; balance_is x] db)
  = account ty x.
Proof. unfold redis_hgetall at 1, redis_hmset. by rewrite lookup_insert_eq. Qed.

Ltac race_step :=
  cbn -[redis_exists redis_hmset redis_hgetall redis_hset];
  rewrite ?lookup_insert_eq, ?hgetall_hset_eq, ?hgetall_hmset_account.

(** X10. CreateAccount takes no lock, and its existence check and its write
    are two steps: when two calls create the same new account, both can pass
    the check before either writes.  In this interleaving, with a deposit
    served between the two writes, all three calls succeed and the deposit
    reports the balance [a], but the second write puts the record back to
    the balance 0 (with the type of the second call): the deposit is
    lost. *)
Theorem CreateAccount_race_loses_deposit (s : Servicer) (id ty1 ty2 : string)
    (a : float) :
  ty1 ∈ ["savings"; "checking"] ->
  ty2 ∈ ["savings"; "checking"] ->
  stored s id = empty_hash ->
  lock_free s id ->
  (0 <? a)%float = true ->
  exists s',
    exec [0; 1; 0; 2; 2; 2; 2; 2; 1]%nat
      (s, [handle (CreateAccountCall (AccountRequest.mk id ty1)) new_context;
           handle (CreateAccountCall (AccountRequest.mk id ty2)) new_context;
           handle (DepositCall (DepositRequest.mk id a)) new_context])
    = Some (s',
            [Ret (new_context,
                  AccountReply
                    (AccountResponse.mk id
                       [Str "Account "; Str id; Str " created successfully"]));
             Ret (new_context,
                  AccountReply
                    (AccountResponse.mk id
                       [Str "Account "; Str id; Str " created successfully"]));
             Ret (new_context,
                  TransactionReply
                    (TransactionResponse.mk id
                       [Str "Successfully deposited $"; Fixed 2 a] a))])
    /\ stored s' id = account ty2 0.
Proof.
  intros H1 H2 Hs Hl Ha.
  unfold handle, CreateAccount, Deposit.
  cbn [AccountRequest.account_id AccountRequest.account_type
       DepositRequest.account_id DepositRequest.amount].
  rewrite !bool_decide_eq_true_2 by assumption.
  rewrite (ltb_leb_false _ _ Ha).
  cbn [negb].
  apply exists_false_stored in Hs as Hex.
  race_step. rewrite Hex. race_step.
  destruct (account_locks s !! id) as [[]|] eqn:El; [by destruct Hl| |];
    do 6 (race_step; rewrite ?El; unfold account);
    rewrite (add_zero_l a Ha);
    (eexists; split; [reflexivity|]);
    unfold stored; cbn [redis_client]; apply hgetall_hmset_account.
Qed.

(** Two clients create "A1" while a third deposits 100. *)
Lemma CreateAccount_race_loses_deposit_witness :
  exists s',
    exec [0; 1; 0; 2; 2; 2; 2; 2; 1]%nat
      (no_accounts,
       [handle (CreateAccountCall (AccountRequest.mk "A1" "savings")) new_context;
        handle (CreateAccountCall (AccountRequest.mk "A1" "checking")) new_context;
        handle (DepositCall (DepositRequest.mk "A1" 100)) new_context])
    = Some (s',
            [Ret (new_context,
                  AccountReply
                    (AccountResponse.mk "A1"
                       [Str "Account "; Str "A1"; Str " created successfully"]));
             Ret (new_context,
                  AccountReply
                    (AccountResponse.mk "A1"
                       [Str "Account "; Str "A1"; Str " created successfully"]));
             Ret (new_context,
                  TransactionReply
                    (TransactionResponse.mk "A1"
                       [Str "Successfully deposited $"; Fixed 2 100] 100))])
    /\ stored s' "A1" = account "checking" 0.
Proof.
  apply (CreateAccount_race_loses_deposit no_accounts "A1" "savings" "checking" 100).
  - by apply list_elem_of_here.
  - apply list_elem_of_further. by apply list_elem_of_here.
  - unfold stored, redis_hgetall. cbn. by rewrite lookup_empty.
  - unfold lock_free. cbn. by rewrite lookup_empty.
  - reflexivity.
Defined.

(** ** Interleaved update calls: the stages of a call *)

Lemma total_insert {A : Type} (w : A -> nat) (l : list A) (i : nat) (x y : A) :
  l !! i = Some x ->
  total w (<[i := y]> l) + w x = total w l + w y.
Proof.
  revert i. induction l as [|z l IH]; intros [|i] H; simplify_eq/=; [lia|].
  specialize (IH i H). lia.
Qed.

Lemma total_lookup {A : Type} (w : A -> nat) (l : list A) (i : nat) (x : A) :
  l !! i = Some x -> w x <= total w l.
Proof.
  revert i. induction l as [|z l IH]; intros [|i] H; simplify_eq/=; [lia|].
  specialize (IH i H). lia.
Qed.

Lemma total_two {A : Type} (w : A -> nat) (l : list A) (i j : nat) (x y : A) :
  i <> j -> l !! i = Some x -> l !! j = Some y -> w x + w y <= total w l.
Proof.
  revert i j. induction l as [|z l IH]; intros [|i] [|j] Hne Hi Hj;
    simplify_eq/=.
  - pose proof (total_lookup w l j y Hj). lia.
  - pose proof (total_lookup w l i x Hi). lia.
  - assert (w x + w y <= total w l); [|lia].
    apply (IH i j); auto.
Qed.

Lemma total_pos {A : Type} (w : A -> nat) (l : list A) :
  0 < total w l -> exists i x, l !! i = Some x /\ 0 < w x.
Proof.
  induction l as [|z l IH]; simpl; [lia|]. intros H.
  destruct (decide (0 < w z)) as [Hz|Hz].
  - by exists 0, z.
  - destruct IH as (i & x & Hi & Hw); [lia|]. by exists (S i), x.
Qed.

(** A call that passes its validation starts by fetching the lock. *)
Lemma handle_takes_lock (rq : request) :
  takes_lock rq = true ->
  handle rq new_context =
  Do (GetAccountLock (target rq))
    (fun l => transaction (with_lock l (critical_section rq))).
Proof.
  destruct rq as [r|r|[id amount]|[id amount]|[id rate]];
    cbn [takes_lock target DepositRequest.amount DepositRequest.account_id
         WithdrawRequest.amount WithdrawRequest.account_id
         InterestRequest.annual_interest_rate InterestRequest.account_id];
    try discriminate; intros Hv%negb_true_iff.
  - unfold handle, Deposit.
    cbn [DepositRequest.amount DepositRequest.account_id]. by rewrite Hv.
  - unfold handle, Withdraw.
    cbn [WithdrawRequest.amount WithdrawRequest.account_id]. by rewrite Hv.
  - unfold handle, CalculateInterest.
    cbn [InterestRequest.annual_interest_rate InterestRequest.account_id].
    by rewrite Hv.
Qed.

(** Once the record is read, the rest of the with-block is the write, if
    there is one, and the release of the lock. *)
Lemma section_after_read (rq : request) (h : hash) (s : Servicer) :
  takes_lock rq = true ->
  stored s (target rq) = h ->
  step_thread (thread_at (rq, InSection)) s
  = Some (s, thread_at (rq, after_read rq h)).
Proof.
  intros Hv <-. unfold after_read, decide_update, stored.
  destruct rq as [r|r|[id amount]|[id amount]|[id rate]]; try discriminate;
    cbn -[redis_hgetall];
    destruct (redis_hgetall (key id) (redis_client s)) as [[ty|] [b|]];
    cbn; try reflexivity.
  by destruct (b <? amount)%float.
Qed.

Lemma step_thread_stage (rq : request) (st : stage) (s : Servicer) :
  takes_lock rq = true ->
  step_thread (thread_at (rq, st)) s =
  match stage_step rq s st with
  | Some (s', st') => Some (s', thread_at (rq, st'))
  | None => None
  end.
Proof.
  intros Hv. destruct st as [| | |x o|o|o].
  - unfold thread_at. cbn [fst snd]. rewrite (handle_takes_lock rq Hv).
    cbn. by destruct (account_locks s !! target rq).
  - cbn. by destruct (account_locks s !! target rq) as [[]|].
  - by apply section_after_read.
  - reflexivity.
  - cbn. by destruct (account_locks s !! target rq) as [[]|].
  - by destruct o.
Qed.

(** An update call that passes its validation, run alone with its lock
    free. *)
Lemma run_update (rq : request) (t : Servicer) :
  takes_lock rq = true ->
  lock_free t (target rq) ->
  run (handle rq new_context) t =
  Some ((decide_update rq (stored t (target rq))).2,
        released (target rq)
          match (decide_update rq (stored t (target rq))).1 with
          | Some x => redis_hset (key (target rq)) (balance_is x) (redis_client t)
          | None => redis_client t
          end t).
Proof.
  intros Hv Hl. rewrite run_handle. unfold decide_update.
  destruct rq as [r|r|[id amount]|[id amount]|[id rate]]; try discriminate;
    cbn [takes_lock target DepositRequest.amount DepositRequest.account_id
         WithdrawRequest.amount WithdrawRequest.account_id
         InterestRequest.annual_interest_rate InterestRequest.account_id] in *;
    apply negb_true_iff in Hv.
  - rewrite run_Deposit, Hv. unfold locked_result.
    rewrite decide_False by exact Hl.
    by destruct (stored t id) as [[ty|] [b|]].
  - rewrite run_Withdraw, Hv. unfold locked_result.
    rewrite decide_False by exact Hl.
    destruct (stored t id) as [[ty|] [b|]]; try reflexivity.
    cbn. by destruct (b <? amount)%float.
  - rewrite run_CalculateInterest, Hv. unfold locked_result.
    rewrite decide_False by exact Hl.
    by destruct (stored t id) as [[ty|] [b|]].
Qed.

Lemma serve_all_snoc (rqs : list request) (rq : request) (s0 t t' : Servicer)
    (os : list (outcome (ServicerContext * response)))
    (o : outcome (ServicerContext * response)) :
  serve_all rqs s0 = Some (os, t) ->
  run (handle rq new_context) t = Some (o, t') ->
  serve_all (rqs ++ [rq])%list s0 = Some ((os ++ [o])%list, t').
Proof.
  revert s0 os. induction rqs as [|r rqs IH]; intros s0 os Hserve Hrun;
    cbn [serve_all app] in *.
  - simplify_eq. by rewrite Hrun.
  - destruct (run (handle r new_context) s0) as [[o1 s1]|]; [|done].
    destruct (serve_all rqs s1) as [[os1 s2]|] eqn:Hrest; [|done].
    simplify_eq. by rewrite (IH s1 os1 Hrest Hrun).
Qed.

Lemma omap_insert_same {A B : Type} (f : A -> option B) (l : list A) (i : nat)
    (x y : A) :
  l !! i = Some x -> f y = f x -> omap f (<[i := y]> l) = omap f l.
Proof.
  revert i. induction l as [|z l IH]; intros [|i] Hi Hf; simplify_eq/=.
  - by rewrite Hf.
  - by rewrite (IH i).
Qed.

Lemma omap_insert_new {A B : Type} (f : A -> option B) (l : list A) (i : nat)
    (x y : A) (c : B) :
  l !! i = Some x -> f x = None -> f y = Some c ->
  omap f (<[i := y]> l) ≡ₚ c :: omap f l.
Proof.
  revert i. induction l as [|z l IH]; intros [|i] Hi Hx Hy; simplify_eq/=.
  - by rewrite Hx, Hy.
  - destruct (f z); rewrite (IH i) by done; [apply Permutation_swap|done].
Qed.

(** ** Update calls at their stages *)


Ltac other_call Hj i j :=
  destruct (decide (i = j)) as [<-|];
  [rewrite list_lookup_insert_eq in Hj by (by eapply lookup_lt_Some)
  |rewrite list_lookup_insert_ne in Hj by done].

(** The locks of started calls stay in the dictionary. *)
Lemma registered_step (s s' : Servicer) (ths : list (request * stage))
    (i : nat) (rq : request) (st st' : stage) :
  (forall j rq' st1,
      ths !! j = Some (rq', st1) -> account_locks s !! target rq' = None ->
      st1 = Begin) ->
  ths !! i = Some (rq, st) ->
  account_locks s' !! target rq <> None ->
  (forall l, account_locks s' !! l = None -> account_locks s !! l = None) ->
  forall j rq' st1,
    <[i := (rq, st')]> ths !! j = Some (rq', st1) ->
    account_locks s' !! target rq' = None ->
    st1 = Begin.
Proof.
  intros Hreg Hi Hsome Hmono j rq' st1 Hj Hnone. other_call Hj i j.
  - by simplify_eq.
  - apply (Hreg j rq' st1 Hj). by apply Hmono.
Qed.

(** What the other calls have read is still what the store holds. *)
Lemma read_step (s s' : Servicer) (ths : list (request * stage))
    (i : nat) (rq : request) (st st' : stage) :
  (forall j rq' x o,
      ths !! j = Some (rq', Storing x o) ->
      decide_update rq' (stored s (target rq')) = (Some x, o)) ->
  ths !! i = Some (rq, st) ->
  (forall j rq' x o,
      j <> i -> ths !! j = Some (rq', Storing x o) ->
      stored s' (target rq') = stored s (target rq')) ->
  (forall x o, st' = Storing x o ->
               decide_update rq (stored s' (target rq)) = (Some x, o)) ->
  forall j rq' x o,
    <[i := (rq, st')]> ths !! j = Some (rq', Storing x o) ->
    decide_update rq' (stored s' (target rq')) = (Some x, o).
Proof.
  intros Hread Hi Hsame Hnew j rq' x o Hj. other_call Hj i j.
  - simplify_eq. by apply Hnew.
  - rewrite (Hsame j rq' x o) by done. by apply (Hread j).
Qed.

(** The count of the calls inside the with-block of each account follows
    the state of its lock. *)
Lemma holder_step (s s' : Servicer) (ths : list (request * stage))
    (i : nat) (rq : request) (st st' : stage) :
  (forall id, total (inside id) ths =
              if decide (account_locks s !! id = Some true) then 1 else 0) ->
  ths !! i = Some (rq, st) ->
  (forall id, id <> target rq ->
              account_locks s' !! id = account_locks s !! id) ->
  inside (target rq) (rq, st')
    + (if decide (account_locks s !! target rq = Some true) then 1 else 0)
  = inside (target rq) (rq, st)
    + (if decide (account_locks s' !! target rq = Some true) then 1 else 0) ->
  forall id,
    total (inside id) (<[i := (rq, st')]> ths) =
    if decide (account_locks s' !! id = Some true) then 1 else 0.
Proof.
  intros Hhold Hi Hother Hthis id.
  pose proof (total_insert (inside id) ths i (rq, st) (rq, st') Hi) as Hw.
  destruct (decide (id = target rq)) as [->|Hne].
  - rewrite Hhold in Hw. lia.
  - rewrite (Hother id Hne), <- Hhold.
    assert (inside id (rq, st) = 0 /\ inside id (rq, st') = 0) as [H1 H2].
    { unfold inside. cbn [fst snd].
      split; [destruct st|destruct st']; try done; by rewrite decide_False. }
    lia.
Qed.

(** A call that takes effect is served after the calls of the log. *)
Lemma serial_snoc (s0 t t' : Servicer)
    (log : list (request * outcome (ServicerContext * response)))
    (rq : request) (o : outcome (ServicerContext * response)) :
  serve_all log.*1 s0 = Some (log.*2, t) ->
  run (handle rq new_context) t = Some (o, t') ->
  serve_all (log ++ [(rq, o)])%list.*1 s0
  = Some ((log ++ [(rq, o)])%list.*2, t').
Proof.
  intros Hser Hrun. rewrite !fmap_app. simpl.
  apply (serve_all_snoc _ _ _ t); [exact Hser|exact Hrun].
Qed.

Lemma log_snoc (ths : list (request * stage))
    (log : list (request * outcome (ServicerContext * response)))
    (i : nat) (rq : request) (st st' : stage)
    (o : outcome (ServicerContext * response)) :
  log ≡ₚ omap took_effect ths ->
  ths !! i = Some (rq, st) ->
  took_effect (rq, st) = None ->
  took_effect (rq, st') = Some (rq, o) ->
  (log ++ [(rq, o)])%list ≡ₚ omap took_effect (<[i := (rq, st')]> ths).
Proof.
  intros Hlog Hi Hold Hnew.
  rewrite (omap_insert_new _ _ _ _ _ (rq, o) Hi Hold Hnew).
  rewrite <- Hlog. symmetry. apply Permutation_cons_append.
Qed.

Lemma stage_step_inv (s0 s s' t : Servicer) (ths : list (request * stage))
    (log : list (request * outcome (ServicerContext * response)))
    (i : nat) (rq : request) (st st' : stage) :
  updates_inv s0 s ths log t ->
  ths !! i = Some (rq, st) ->
  stage_step rq s st = Some (s', st') ->
  (exists log' t', updates_inv s0 s' (<[i := (rq, st')]> ths) log' t')
  /\ steps_ahead (rq, st') < steps_ahead (rq, st).
Proof.
  intros [Hser Hstore Hfree Hlog Hvalid Hread Hhold Hreg] Hi Hstep.
  assert (Hv : takes_lock rq = true).
  { eapply Forall_lookup_1 in Hvalid; [|exact Hi]. exact Hvalid. }
  assert (Hvalid' : forall st1,
             Forall (fun th => takes_lock th.1 = true) (<[i := (rq, st1)]> ths)).
  { intros st1. apply Forall_insert; [exact Hvalid|exact Hv]. }
  assert (Hst : stored t (target rq) = stored s (target rq))
    by (unfold stored; by rewrite Hstore).
  destruct st as [| | |x o|o|o]; cbn [stage_step] in Hstep.
  - (* the lock is fetched *)
    assert (st' = Awaiting) as -> by congruence.
    assert (Hdb : redis_client s' = redis_client s).
    { simplify_eq. by destruct (account_locks s !! target rq). }
    assert (Hl : forall l, account_locks s' !! l = Some true <->
                           account_locks s !! l = Some true).
    { intros l. simplify_eq.
      destruct (account_locks s !! target rq) eqn:El; [done|]. cbn.
      destruct (decide (target rq = l)) as [<-|Hne].
      - rewrite lookup_insert_eq, El. split; congruence.
      - by rewrite lookup_insert_ne. }
    assert (Hn : forall l, account_locks s' !! l = None ->
                           account_locks s !! l = None).
    { intros l. simplify_eq.
      destruct (account_locks s !! target rq) eqn:El; [done|]. cbn.
      destruct (decide (target rq = l)) as [<-|Hne].
      - by rewrite lookup_insert_eq.
      - by rewrite lookup_insert_ne. }
    assert (Hs : account_locks s' !! target rq <> None).
    { simplify_eq.
      destruct (account_locks s !! target rq) eqn:El; [by rewrite El|]. cbn.
      by rewrite lookup_insert_eq. }
    split; [|cbn; lia]. exists log, t. split.
    + exact Hser.
    + by rewrite Hdb.
    + exact Hfree.
    + by rewrite (omap_insert_same _ _ _ _ _ Hi).
    + apply Hvalid'.
    + eapply read_step; [exact Hread|exact Hi| |done].
      intros. unfold stored. by rewrite Hdb.
    + intros id.
      pose proof (total_insert (inside id) ths i _ (rq, Awaiting) Hi) as Hw.
      cbn [inside snd] in Hw. rewrite Nat.add_0_r in Hw. rewrite Hw, Hhold.
      destruct (decide (account_locks s !! id = Some true)) as [H1|H1],
        (decide (account_locks s' !! id = Some true)) as [H2|H2]; try done;
        [by apply Hl in H1|by apply Hl in H2].
    + eapply registered_step; eauto.
  - (* the lock is acquired *)
    destruct (account_locks s !! target rq) as [[]|] eqn:El; simplify_eq.
    split; [|cbn; lia]. exists log, t. split.
    + exact Hser.
    + exact Hstore.
    + exact Hfree.
    + by rewrite (omap_insert_same _ _ _ _ _ Hi).
    + apply Hvalid'.
    + eapply read_step; [exact Hread|exact Hi|done|done].
    + eapply holder_step; [exact Hhold|exact Hi| |].
      * intros id Hne. cbn. by rewrite lookup_insert_ne.
      * cbn [inside fst snd account_locks with_locks].
        rewrite lookup_insert_eq, El.
        rewrite !decide_True by done. by rewrite decide_False.
    + eapply registered_step; [exact Hreg|exact Hi| |].
      * cbn. by rewrite lookup_insert_eq.
      * intros l. cbn. destruct (decide (target rq = l)) as [<-|Hne].
        -- by rewrite lookup_insert_eq.
        -- by rewrite lookup_insert_ne.
  - (* the record is read *)
    assert (s' = s) as -> by congruence.
    assert (st' = after_read rq (stored s (target rq))) as -> by congruence.
    assert (Hlk : account_locks s !! target rq <> None).
    { intros Hnone. by pose proof (Hreg i rq InSection Hi Hnone). }
    assert (Hin : inside (target rq) (rq, after_read rq (stored s (target rq)))
                  = inside (target rq) (rq, InSection)).
    { unfold after_read. by destruct (decide_update _ _) as [[x|] o]. }
    split; [|unfold after_read; destruct (decide_update _ _) as [[x|] o];
             cbn; lia].
    unfold after_read in *.
    destruct (decide_update rq (stored s (target rq))) as [[x|] o] eqn:Hdec.
    + exists log, t. split.
      * exact Hser.
      * exact Hstore.
      * exact Hfree.
      * by rewrite (omap_insert_same _ _ _ _ _ Hi).
      * apply Hvalid'.
      * eapply read_step; [exact Hread|exact Hi|done|]. intros; by simplify_eq.
      * eapply holder_step; [exact Hhold|exact Hi|done|]. rewrite Hin. lia.
      * eapply registered_step; [exact Hreg|exact Hi|exact Hlk|done].
    + pose proof (run_update rq t Hv (Hfree _)) as Hrun.
      rewrite Hst, Hdec in Hrun. cbn [fst snd] in Hrun.
      exists (log ++ [(rq, o)])%list, (released (target rq) (redis_client t) t).
      split.
      * by apply (serial_snoc _ t).
      * exact Hstore.
      * intros l. by apply lock_free_released.
      * by apply (log_snoc _ _ _ _ InSection).
      * apply Hvalid'.
      * eapply read_step; [exact Hread|exact Hi|done|done].
      * eapply holder_step; [exact Hhold|exact Hi|done|]. rewrite Hin. lia.
      * eapply registered_step; [exact Hreg|exact Hi|exact Hlk|done].
  - (* the balance is written *)
    simplify_eq.
    assert (Hlk : account_locks s !! target rq <> None).
    { intros Hnone. by pose proof (Hreg i rq _ Hi Hnone). }
    pose proof (Hread i rq x o Hi) as Hdec.
    pose proof (run_update rq t Hv (Hfree _)) as Hrun.
    rewrite Hst, Hdec in Hrun. cbn [fst snd] in Hrun.
    split; [|cbn; lia].
    exists (log ++ [(rq, o)])%list,
      (released (target rq)
         (redis_hset (key (target rq)) (balance_is x) (redis_client t)) t).
    split.
    + by apply (serial_snoc _ t).
    + cbn. by rewrite Hstore.
    + intros l. by apply lock_free_released.
    + by apply (log_snoc _ _ _ _ (Storing x o)).
    + apply Hvalid'.
    + eapply read_step; [exact Hread|exact Hi| |done].
      intros j rq' x' o' Hne Hj.
      destruct (decide (target rq = target rq')) as [Heq|Hne'].
      * pose proof (total_two (inside (target rq)) ths i j _ _
                      (not_eq_sym Hne) Hi Hj) as Htwo.
        cbn [inside snd fst] in Htwo.
        rewrite decide_True in Htwo by done.
        rewrite decide_True in Htwo by done.
        specialize (Hhold (target rq)). case_decide; lia.
      * unfold stored. cbn [redis_client].
        rewrite hgetall_hset_ne; [done|]. intros Hk. by apply key_inj in Hk.
    + eapply holder_step; [exact Hhold|exact Hi|done|]. cbn. lia.
    + eapply registered_step; [exact Hreg|exact Hi|exact Hlk|done].
  - (* the lock is released *)
    destruct (account_locks s !! target rq) as [[]|] eqn:El; simplify_eq.
    split; [|cbn; lia]. exists log, t. split.
    + exact Hser.
    + exact Hstore.
    + exact Hfree.
    + by rewrite (omap_insert_same _ _ _ _ _ Hi).
    + apply Hvalid'.
    + eapply read_step; [exact Hread|exact Hi|done|done].
    + eapply holder_step; [exact Hhold|exact Hi| |].
      * intros id Hne. cbn. by rewrite lookup_insert_ne.
      * cbn [inside fst snd account_locks with_locks].
        rewrite lookup_insert_eq, El.
        rewrite !decide_True by done. by rewrite decide_False.
    + eapply registered_step; [exact Hreg|exact Hi| |].
      * cbn. by rewrite lookup_insert_eq.
      * intros l. cbn. destruct (decide (target rq = l)) as [<-|Hne].
        -- by rewrite lookup_insert_eq.
        -- by rewrite lookup_insert_ne.
  - done.
Qed.

(** ** Interleavings of update calls *)

Lemma step_at_stage (s s' : Servicer) (ths : list (request * stage)) (i : nat)
    (pool' : list (prog (ServicerContext * response))) :
  Forall (fun th => takes_lock th.1 = true) ths ->
  step_at i (s, thread_at <$> ths) = Some (s', pool') ->
  exists rq st st',
    ths !! i = Some (rq, st)
    /\ stage_step rq s st = Some (s', st')
    /\ pool' = thread_at <$> <[i := (rq, st')]> ths.
Proof.
  intros Hvalid Hstep. unfold step_at in Hstep. cbn [fst snd] in Hstep.
  rewrite list_lookup_fmap in Hstep.
  destruct (ths !! i) as [[rq st]|] eqn:Hi; [|done].
  cbn [fmap option_fmap option_map] in Hstep.
  assert (Hv : takes_lock rq = true).
  { eapply Forall_lookup_1 in Hvalid; [|exact Hi]. exact Hvalid. }
  rewrite (step_thread_stage rq st s Hv) in Hstep.
  destruct (stage_step rq s st) as [[s1 st']|] eqn:Hs; [|done].
  simplify_eq. exists rq, st, st'. by rewrite list_fmap_insert.
Qed.

Lemma exec_updates_inv (schedule : list nat) :
  forall (s0 s s' t : Servicer) (ths : list (request * stage))
         (log : list (request * outcome (ServicerContext * response)))
         (pool' : list (prog (ServicerContext * response))),
    updates_inv s0 s ths log t ->
    exec schedule (s, thread_at <$> ths) = Some (s', pool') ->
    exists ths' log' t',
      pool' = thread_at <$> ths'
      /\ updates_inv s0 s' ths' log' t'
      /\ ths'.*1 = ths.*1
      /\ total steps_ahead ths' + length schedule <= total steps_ahead ths.
Proof.
  induction schedule as [|i rest IH]; intros s0 s s' t ths log pool' Hinv Hex.
  - cbn in Hex. simplify_eq. exists ths, log, t. cbn. by rewrite Nat.add_0_r.
  - cbn [exec] in Hex.
    destruct (step_at i (s, thread_at <$> ths)) as [[s1 pool1]|] eqn:Hstep;
      [|done].
    destruct (step_at_stage _ _ _ _ _ (ui_valid _ _ _ _ _ Hinv) Hstep)
      as (rq & st & st' & Hi & Hs & ->).
    destruct (stage_step_inv _ _ _ _ _ _ _ _ _ _ Hinv Hi Hs)
      as [(log1 & t1 & Hinv1) Hless].
    destruct (IH _ _ _ _ _ _ _ Hinv1 Hex)
      as (ths' & log' & t' & -> & Hinv' & Hfst & Hlen).
    exists ths', log', t'. split; [done|]. split; [done|]. split.
    + rewrite Hfst, list_fmap_insert. apply list_insert_id.
      by rewrite list_lookup_fmap, Hi.
    + pose proof (total_insert steps_ahead ths i _ (rq, st') Hi) as Hw.
      cbn [length]. lia.
Qed.

(** A lock-free servicer and calls that have not started. *)
Lemma updates_inv_start (s : Servicer) (rqs : list request) :
  Forall (fun rq => takes_lock rq = true) rqs ->
  (forall l, lock_free s l) ->
  updates_inv s s ((fun rq => (rq, Begin)) <$> rqs) [] s.
Proof.
  intros Hvalid Hfree.
  assert (Hzero : forall id,
             total (inside id) ((fun rq => (rq, Begin)) <$> rqs) = 0).
  { intros id. induction rqs as [|rq rqs IH]; [done|]. cbn.
    apply IH. by eapply Forall_inv_tail. }
  split.
  - done.
  - done.
  - exact Hfree.
  - induction rqs as [|rq rqs IH]; [done|]. cbn.
    apply IH; [by eapply Forall_inv_tail|]. intros id.
    specialize (Hzero id). cbn in Hzero. exact Hzero.
  - by apply Forall_fmap.
  - intros i rq x o Hi. rewrite list_lookup_fmap in Hi.
    destruct (rqs !! i); by simplify_eq.
  - intros id. rewrite Hzero. by rewrite decide_False by apply Hfree.
  - intros i rq st Hi _. rewrite list_lookup_fmap in Hi.
    destruct (rqs !! i); cbn in Hi; congruence.
Qed.

Lemma pool_start (rqs : list request) :
  thread_at <$> ((fun rq => (rq, Begin)) <$> rqs)
  = (fun rq => handle rq new_context) <$> rqs.
Proof. by rewrite <- list_fmap_compose. Qed.

Lemma fst_start (rqs : list request) :
  ((fun rq => (rq, Begin)) <$> rqs).*1 = rqs.
Proof. rewrite <- list_fmap_compose. apply list_fmap_id. Qed.

Lemma steps_start (rqs : list request) :
  total steps_ahead ((fun rq => (rq, Begin)) <$> rqs) = 5 * length rqs.
Proof.
  induction rqs as [|rq rqs IH]; [done|].
  change (5 + total steps_ahead ((fun rq => (rq, Begin)) <$> rqs)
          = 5 * S (length rqs)).
  rewrite IH. lia.
Qed.

(** Only a call that is over has a finished program. *)
Lemma finished_stage (rq : request) (st : stage) :
  takes_lock rq = true ->
  finished (thread_at (rq, st)) = true ->
  exists o, st = Over o.
Proof.
  intros Hv Hfin. destruct st as [| | |x o|o|o].
  - unfold thread_at in Hfin. cbn [fst snd] in Hfin.
    by rewrite (handle_takes_lock rq Hv) in Hfin.
  - by destruct rq.
  - by destruct rq.
  - done.
  - done.
  - by eexists.
Qed.

Lemma all_over (ths : list (request * stage)) :
  Forall (fun th => takes_lock th.1 = true) ths ->
  Forall (fun p => finished p = true) (thread_at <$> ths) ->
  thread_at <$> ths = of_outcome <$> (omap took_effect ths).*2
  /\ omap took_effect ths = zip ths.*1 (omap took_effect ths).*2.
Proof.
  induction ths as [|[rq st] ths IH]; intros Hvalid Hfin; [done|].
  apply Forall_cons in Hvalid as [Hv Hvalid].
  rewrite fmap_cons in Hfin. apply Forall_cons in Hfin as [Hf Hfin].
  destruct (finished_stage rq st Hv Hf) as [o ->].
  destruct (IH Hvalid Hfin) as [IH1 IH2]. cbn. split.
  - by rewrite <- IH1.
  - by rewrite <- IH2.
Qed.

(** A call inside a with-block can take its next step. *)
Lemma inside_can_step (s0 s t : Servicer) (ths : list (request * stage))
    (log : list (request * outcome (ServicerContext * response)))
    (k : nat) (rq : request) (st : stage) (id : string) :
  updates_inv s0 s ths log t ->
  ths !! k = Some (rq, st) ->
  0 < inside id (rq, st) ->
  exists r, stage_step rq s st = Some r.
Proof.
  intros Hinv Hk Hin. destruct st as [| | |x o|o|o]; cbn in Hin; try lia.
  - by eexists.
  - by eexists.
  - pose proof (total_lookup (inside (target rq)) ths k _ Hk) as Hle.
    rewrite (ui_holder _ _ _ _ _ Hinv) in Hle. cbn [inside fst snd] in Hle.
    rewrite decide_True in Hle by done.
    cbn [stage_step]. case_decide as Hl; [|lia]. rewrite Hl. by eexists.
Qed.

(** While a call is not over, some call can take a step. *)
Lemma some_call_can_step (s0 s t : Servicer) (ths : list (request * stage))
    (log : list (request * outcome (ServicerContext * response)))
    (j : nat) (rq : request) (st : stage) :
  updates_inv s0 s ths log t ->
  ths !! j = Some (rq, st) ->
  (forall o, st <> Over o) ->
  exists k c, step_at k (s, thread_at <$> ths) = Some c.
Proof.
  intros Hinv Hj Hst.
  assert (Hgo : forall k rq' st' r,
             ths !! k = Some (rq', st') -> stage_step rq' s st' = Some r ->
             exists k c, step_at k (s, thread_at <$> ths) = Some c).
  { intros k rq' st' [s1 st1] Hk Hs. exists k. unfold step_at. cbn [fst snd].
    rewrite list_lookup_fmap, Hk. cbn [fmap option_fmap option_map].
    assert (Hv : takes_lock rq' = true).
    { pose proof (ui_valid _ _ _ _ _ Hinv) as Hvalid.
      eapply Forall_lookup_1 in Hvalid; [|exact Hk]. exact Hvalid. }
    rewrite (step_thread_stage rq' st' s Hv), Hs. by eexists. }
  assert (Hin : 0 < inside (target rq) (rq, st) ->
                exists k c, step_at k (s, thread_at <$> ths) = Some c).
  { intros Hpos. destruct (inside_can_step _ _ _ _ _ _ _ _ _ Hinv Hj Hpos)
      as [r Hr]. by apply (Hgo j rq st r). }
  destruct st as [| | |x o|o|o].
  - by apply (Hgo j rq Begin (match account_locks s !! target rq with
                              | None => with_locks
                                          (<[target rq := false]> (account_locks s)) s
                              | Some _ => s
                              end, Awaiting)).
  - destruct (account_locks s !! target rq) as [[]|] eqn:El.
    + pose proof (ui_holder _ _ _ _ _ Hinv (target rq)) as Hhold.
      rewrite decide_True in Hhold by done.
      destruct (total_pos (inside (target rq)) ths) as (k & [rq' st'] & Hk & Hpos);
        [lia|].
      destruct (inside_can_step _ _ _ _ _ _ _ _ _ Hinv Hk Hpos) as [r Hr].
      by apply (Hgo k rq' st' r).
    + apply (Hgo j rq Awaiting
               (with_locks (<[target rq := true]> (account_locks s)) s,
                InSection)); [done|].
      cbn [stage_step]. by rewrite El.
    + by pose proof (ui_registered _ _ _ _ _ Hinv j rq _ Hj El).
  - apply Hin. cbn [inside fst snd]. rewrite decide_True by done. lia.
  - apply Hin. cbn [inside fst snd]. rewrite decide_True by done. lia.
  - apply Hin. cbn [inside fst snd]. rewrite decide_True by done. lia.
  - by destruct (Hst o).
Qed.

(** The calls whose next action belongs to a with-block are inside it. *)
Lemma in_section_inside (rq : request) (st : stage) (id : string) :
  takes_lock rq = true ->
  in_section id (thread_at (rq, st)) = true ->
  inside id (rq, st) = 1.
Proof.
  intros Hv Hin. destruct st as [| | |x o|o|o].
  - unfold thread_at in Hin. cbn [fst snd] in Hin.
    by rewrite (handle_takes_lock rq Hv) in Hin.
  - by destruct rq.
  - destruct rq; try done; cbn in Hin; apply bool_decide_eq_true in Hin;
      apply key_inj in Hin; cbn [inside fst snd target];
      by rewrite decide_True.
  - cbn in Hin. apply bool_decide_eq_true, key_inj in Hin.
    cbn [inside fst snd]. by rewrite decide_True.
  - cbn in Hin. apply bool_decide_eq_true in Hin.
    cbn [inside fst snd]. by rewrite decide_True.
  - by destruct o.
Qed.

Lemma reachable_updates_inv (rqs : list request) (s s' : Servicer)
    (schedule : list nat) (pool' : list (prog (ServicerContext * response))) :
  Forall (fun rq => takes_lock rq = true) rqs ->
  (forall l, lock_free s l) ->
  exec schedule (s, (fun rq => handle rq new_context) <$> rqs)
  = Some (s', pool') ->
  exists ths' log' t',
    pool' = thread_at <$> ths'
    /\ updates_inv s s' ths' log' t'
    /\ ths'.*1 = rqs
    /\ total steps_ahead ths' + length schedule <= 5 * length rqs.
Proof.
  intros Hvalid Hfree Hex. rewrite <- pool_start in Hex.
  destruct (exec_updates_inv _ _ _ _ _ _ _ _
              (updates_inv_start s rqs Hvalid Hfree) Hex)
    as (ths' & log' & t' & Hpool & Hinv & Hfst & Hlen).
  exists ths', log', t'. by rewrite <- (fst_start rqs) at 1; rewrite <- steps_start.
Qed.

Lemma all_over_outside (ths : list (request * stage)) (id : string) :
  Forall (fun th => takes_lock th.1 = true) ths ->
  Forall (fun p => finished p = true) (thread_at <$> ths) ->
  total (inside id) ths = 0.
Proof.
  induction ths as [|[rq st] ths IH]; intros Hvalid Hfin; [done|].
  apply Forall_cons in Hvalid as [Hv Hvalid].
  rewrite fmap_cons in Hfin. apply Forall_cons in Hfin as [Hf Hfin].
  destruct (finished_stage rq st Hv Hf) as [o ->].
  cbn. by apply IH.
Qed.

(** X11. Serializability of the updates.  Deposit, Withdraw and
    CalculateInterest calls that pass the validation of their amount or rate
    run in a pool of threads, on any accounts, from a servicer whose locks
    are free.  Whatever the interleaving, once all calls are finished their
    outcomes and the store are those of serving the same calls one after
    the other in some order, and every lock is free again. *)
Theorem concurrent_updates_serializable (rqs : list request) (s s' : Servicer)
    (schedule : list nat) (pool' : list (prog (ServicerContext * response))) :
  Forall (fun rq => takes_lock rq = true) rqs ->
  (forall l, lock_free s l) ->
  exec schedule (s, (fun rq => handle rq new_context) <$> rqs)
  = Some (s', pool') ->
  Forall (fun p => finished p = true) pool' ->
  exists outs order t,
    pool' = of_outcome <$> outs
    /\ length outs = length rqs
    /\ order ≡ₚ zip rqs outs
    /\ serve_all order.*1 s = Some (order.*2, t)
    /\ redis_client t = redis_client s'
    /\ forall l, lock_free s' l.
Proof.
  intros Hvalid Hfree Hex Hfin.
  destruct (reachable_updates_inv rqs s s' schedule pool' Hvalid Hfree Hex)
    as (ths' & log' & t' & -> & Hinv & Hfst & _).
  pose proof (ui_valid _ _ _ _ _ Hinv) as Hvalid'.
  destruct (all_over ths' Hvalid' Hfin) as [Hpool Hzip].
  exists (omap took_effect ths').*2, log', t'.
  split; [exact Hpool|]. split.
  { pose proof (f_equal length Hpool) as Hl. rewrite !length_fmap in Hl.
    by rewrite <- Hfst, !length_fmap. }
  split.
  { rewrite <- Hfst, <- Hzip. exact (ui_log _ _ _ _ _ Hinv). }
  split; [exact (ui_serial _ _ _ _ _ Hinv)|].
  split; [exact (ui_store _ _ _ _ _ Hinv)|].
  intros l Hl. pose proof (ui_holder _ _ _ _ _ Hinv l) as Hhold.
  rewrite (all_over_outside ths' l Hvalid' Hfin) in Hhold.
  by rewrite decide_True in Hhold.
Qed.

(** A deposit and a withdrawal on the same account: the withdrawal takes the
    lock first and the deposit waits for it. *)
Lemma concurrent_updates_serializable_witness :
  exists s' pool' outs order t,
    exec [0; 1; 1; 1; 1; 1; 0; 0; 0; 0]%nat
      (one_account 100,
       [handle (DepositCall (DepositRequest.mk "A1" 50)) new_context;
        handle (WithdrawCall (WithdrawRequest.mk "A1" 30)) new_context])
    = Some (s', pool')
    /\ pool' = of_outcome <$> outs
    /\ order ≡ₚ zip [DepositCall (DepositRequest.mk "A1" 50);
                     WithdrawCall (WithdrawRequest.mk "A1" 30)] outs
    /\ serve_all order.*1 (one_account 100) = Some (order.*2, t)
    /\ redis_client t = redis_client s'.
Proof.
  destruct (exec [0; 1; 1; 1; 1; 1; 0; 0; 0; 0]%nat
              (one_account 100,
               [handle (DepositCall (DepositRequest.mk "A1" 50)) new_context;
                handle (WithdrawCall (WithdrawRequest.mk "A1" 30)) new_context]))
    as [[s' pool']|] eqn:Hexec; [|vm_compute in Hexec; discriminate Hexec].
  assert (Hfin : Forall (fun p => finished p = true) pool').
  { vm_compute in Hexec. injection Hexec as _ <-. by repeat constructor. }
  destruct (concurrent_updates_serializable
              [DepositCall (DepositRequest.mk "A1" 50);
               WithdrawCall (WithdrawRequest.mk "A1" 30)]
              (one_account 100) s' [0; 1; 1; 1; 1; 1; 0; 0; 0; 0]%nat pool')
    as (outs & order & t & Hpool & _ & Hperm & Hserve & Hstore & _).
  - by repeat constructor.
  - intros l. unfold lock_free. cbn. by rewrite lookup_empty.
  - exact Hexec.
  - exact Hfin.
  - by exists s', pool', outs, order, t.
Defined.

(** X12. An update call that passes validation takes at most five atomic
    steps (fetching the lock, acquiring it, reading the record, writing the
    balance, releasing the lock), so no interleaving of [n] such calls is
    longer than [5 * n]: a call that waits for a lock does not spin. *)
Theorem concurrent_updates_step_bound (rqs : list request) (s s' : Servicer)
    (schedule : list nat) (pool' : list (prog (ServicerContext * response))) :
  Forall (fun rq => takes_lock rq = true) rqs ->
  (forall l, lock_free s l) ->
  exec schedule (s, (fun rq => handle rq new_context) <$> rqs)
  = Some (s', pool') ->
  length schedule <= 5 * length rqs.
Proof.
  intros Hvalid Hfree Hex.
  destruct (reachable_updates_inv rqs s s' schedule pool' Hvalid Hfree Hex)
    as (ths' & log' & t' & _ & _ & _ & Hlen).
  lia.
Qed.

Lemma concurrent_updates_step_bound_witness :
  exists s' pool',
    exec [0; 1; 1; 1; 1; 1; 0; 0; 0; 0]%nat
      (one_account 100,
       [handle (DepositCall (DepositRequest.mk "A1" 50)) new_context;
        handle (WithdrawCall (WithdrawRequest.mk "A1" 30)) new_context])
    = Some (s', pool')
    /\ 10 <= 5 * 2.
Proof.
  destruct (exec [0; 1; 1; 1; 1; 1; 0; 0; 0; 0]%nat
              (one_account 100,
               [handle (DepositCall (DepositRequest.mk "A1" 50)) new_context;
                handle (WithdrawCall (WithdrawRequest.mk "A1" 30)) new_context]))
    as [[s' pool']|] eqn:Hexec; [|vm_compute in Hexec; discriminate Hexec].
  exists s', pool'. split; [reflexivity|].
  apply (concurrent_updates_step_bound
           [DepositCall (DepositRequest.mk "A1" 50);
            WithdrawCall (WithdrawRequest.mk "A1" 30)]
           (one_account 100) s' [0; 1; 1; 1; 1; 1; 0; 0; 0; 0]%nat pool').
  - by repeat constructor.
  - intros l. unfold lock_free. cbn. by rewrite lookup_empty.
  - exact Hexec.
Defined.

(** X13. No deadlock among the updates: in every configuration that a pool
    of validated update calls reaches from a servicer whose locks are free,
    either every call is finished or some thread can take a step.  A lock
    that is held is always held by a call that can go on to release it. *)
Theorem concurrent_updates_never_deadlock (rqs : list request)
    (s s' : Servicer) (schedule : list nat)
    (pool' : list (prog (ServicerContext * response))) :
  Forall (fun rq => takes_lock rq = true) rqs ->
  (forall l, lock_free s l) ->
  exec schedule (s, (fun rq => handle rq new_context) <$> rqs)
  = Some (s', pool') ->
  Forall (fun p => finished p = true) pool'
  \/ exists i c, step_at i (s', pool') = Some c.
Proof.
  intros Hvalid Hfree Hex.
  destruct (reachable_updates_inv rqs s s' schedule pool' Hvalid Hfree Hex)
    as (ths' & log' & t' & -> & Hinv & _ & _).
  destruct (decide (Forall (fun p => finished p = true) (thread_at <$> ths')))
    as [Hall|Hnot]; [by left|right].
  apply not_Forall_Exists in Hnot; [|intros p; apply _].
  apply Exists_exists in Hnot as (p & Hp & Hunf).
  apply list_elem_of_lookup in Hp as [j Hj].
  rewrite list_lookup_fmap in Hj.
  destruct (ths' !! j) as [[rq st]|] eqn:Hth; [|done].
  cbn in Hj. injection Hj as <-.
  apply (some_call_can_step _ _ _ _ _ j rq st Hinv Hth).
  intros o ->. apply Hunf. by destruct o.
Qed.

(** The deposit holds the lock and can go on; the withdrawal waits. *)
Lemma concurrent_updates_never_deadlock_witness :
  exists s' pool',
    exec [0; 1; 0]%nat
      (one_account 100,
       [handle (DepositCall (DepositRequest.mk "A1" 50)) new_context;
        handle (WithdrawCall (WithdrawRequest.mk "A1" 30)) new_context])
    = Some (s', pool')
    /\ step_at 1 (s', pool') = None
    /\ (Forall (fun p => finished p = true) pool'
        \/ exists i c, step_at i (s', pool') = Some c).
Proof.
  destruct (exec [0; 1; 0]%nat
              (one_account 100,
               [handle (DepositCall (DepositRequest.mk "A1" 50)) new_context;
                handle (WithdrawCall (WithdrawRequest.mk "A1" 30)) new_context]))
    as [[s' pool']|] eqn:Hexec; [|vm_compute in Hexec; discriminate Hexec].
  exists s', pool'. split; [reflexivity|]. split.
  { vm_compute in Hexec. injection Hexec as <- <-. vm_compute. reflexivity. }
  apply (concurrent_updates_never_deadlock
           [DepositCall (DepositRequest.mk "A1" 50);
            WithdrawCall (WithdrawRequest.mk "A1" 30)]
           (one_account 100) s' [0; 1; 0]%nat pool').
  - by repeat constructor.
  - intros l. unfold lock_free. cbn. by rewrite lookup_empty.
  - exact Hexec.
Defined.

(** X14. Mutual exclusion: in every configuration that a pool of validated
    update calls reaches from a servicer whose locks are free, no two calls
    are inside the with-block of the same account, that is, about to read
    or write its record or to release its lock. *)
Theorem with_blocks_exclude_each_other (rqs : list request) (s s' : Servicer)
    (schedule : list nat) (pool' : list (prog (ServicerContext * response)))
    (i j : nat) (p q : prog (ServicerContext * response)) (id : string) :
  Forall (fun rq => takes_lock rq = true) rqs ->
  (forall l, lock_free s l) ->
  exec schedule (s, (fun rq => handle rq new_context) <$> rqs)
  = Some (s', pool') ->
  i <> j ->
  pool' !! i = Some p ->
  pool' !! j = Some q ->
  in_section id p = true ->
  in_section id q = false.
Proof.
  intros Hvalid Hfree Hex Hne Hi Hj Hp.
  destruct (reachable_updates_inv rqs s s' schedule pool' Hvalid Hfree Hex)
    as (ths' & log' & t' & -> & Hinv & _ & _).
  pose proof (ui_valid _ _ _ _ _ Hinv) as Hvalid'.
  rewrite list_lookup_fmap in Hi, Hj.
  destruct (ths' !! i) as [[rq1 st1]|] eqn:Hi'; [|done].
  destruct (ths' !! j) as [[rq2 st2]|] eqn:Hj'; [|done].
  cbn in Hi, Hj. injection Hi as <-. injection Hj as <-.
  destruct (in_section id (thread_at (rq2, st2))) eqn:Hq; [|done].
  assert (Hv1 : takes_lock rq1 = true).
  { eapply Forall_lookup_1 in Hvalid'; [|exact Hi']. exact Hvalid'. }
  assert (Hv2 : takes_lock rq2 = true).
  { eapply Forall_lookup_1 in Hvalid'; [|exact Hj']. exact Hvalid'. }
  pose proof (in_section_inside rq1 st1 id Hv1 Hp) as H1.
  pose proof (in_section_inside rq2 st2 id Hv2 Hq) as H2.
  pose proof (total_two (inside id) ths' i j _ _ Hne Hi' Hj') as Htwo.
  pose proof (ui_holder _ _ _ _ _ Hinv id) as Hhold.
  case_decide; lia.
Qed.

(** The deposit is about to read the record; the withdrawal is not inside
    the with-block. *)
Lemma with_blocks_exclude_each_other_witness :
  exists s' p q,
    exec [0; 1; 0]%nat
      (one_account 100,
       [handle (DepositCall (DepositRequest.mk "A1" 50)) new_context;
        handle (WithdrawCall (WithdrawRequest.mk "A1" 30)) new_context])
    = Some (s', [p; q])
    /\ in_section "A1" p = true
    /\ in_section "A1" q = false.
Proof.
  destruct (exec [0; 1; 0]%nat
              (one_account 100,
               [handle (DepositCall (DepositRequest.mk "A1" 50)) new_context;
                handle (WithdrawCall (WithdrawRequest.mk "A1" 30)) new_context]))
    as [[s' pool']|] eqn:Hexec; [|vm_compute in Hexec; discriminate Hexec].
  assert (Hp : exists p q, pool' = [p; q] /\ in_section "A1" p = true).
  { vm_compute in Hexec. injection Hexec as _ <-. by eexists _, _. }
  destruct Hp as (p & q & -> & Hp).
  exists s', p, q. split; [reflexivity|]. split; [exact Hp|].
  apply (with_blocks_exclude_each_other
           [DepositCall (DepositRequest.mk "A1" 50);
            WithdrawCall (WithdrawRequest.mk "A1" 30)]
           (one_account 100) s' [0; 1; 0]%nat [p; q] 0 1 p q "A1").
  - by repeat constructor.
  - intros l. unfold lock_free. cbn. by rewrite lookup_empty.
  - exact Hexec.
  - done.
  - done.
  - done.
  - exact Hp.
Defined.

(** ** Non-negativity of the balances, for numeric arguments *)

Lemma leb_zero_nonneg (b : float) : (0 <=? b)%float = nonneg (Prim2SF b).
Proof.
  rewrite leb_spec. change (Prim2SF 0) with (S754_zero false).
  by destruct (Prim2SF b) as [[]|[]| |[] m e].
Qed.

Lemma shr_1_nonneg (mrs : shr_record) :
  (0 <= shr_m mrs)%Z -> (0 <= shr_m (shr_1 mrs))%Z.
Proof. destruct mrs as [[|[p|p|]|p] r s]; cbn; lia. Qed.

Lemma iter_shr_1_nonneg (n : nat) (mrs : shr_record) :
  (0 <= shr_m mrs)%Z -> (0 <= shr_m (Nat.iter n shr_1 mrs))%Z.
Proof.
  induction n as [|n IH]; intros H; [done|]. cbn. by apply shr_1_nonneg, IH.
Qed.

Lemma shr_fexp_nonneg (m e : Z) (l : location) :
  (0 <= m)%Z -> (0 <= shr_m (shr_fexp prec emax m e l).1)%Z.
Proof.
  intros Hm. unfold shr_fexp, shr.
  assert (H0 : (0 <= shr_m (shr_record_of_loc m l))%Z)
    by (by destruct l as [|[]]).
  destruct (fexp prec emax (Zdigits2 m + e) - e)%Z; cbn [fst]; try done.
  rewrite iter_pos_nat. by apply iter_shr_1_nonneg.
Qed.

Lemma round_nearest_even_nonneg (m : Z) (l : location) :
  (0 <= m)%Z -> (0 <= round_nearest_even m l)%Z.
Proof.
  intros Hm. destruct l as [|[]]; cbn; try lia. destruct (Z.even m); lia.
Qed.

(** Rounding keeps the sign and never gives NaN. *)
Lemma binary_round_aux_nonneg (m e : Z) (l : location) :
  (0 <= m)%Z -> nonneg (binary_round_aux prec emax false m e l) = true.
Proof.
  intros Hm. unfold binary_round_aux.
  pose proof (shr_fexp_nonneg m e l Hm) as H1.
  destruct (shr_fexp prec emax m e l) as [mrs1 e1]. cbn [fst] in H1.
  pose proof (shr_fexp_nonneg _ e1 loc_Exact
                (round_nearest_even_nonneg _ (loc_of_shr_record mrs1) H1)) as H2.
  destruct (shr_fexp prec emax _ e1 loc_Exact) as [mrs2 e2]. cbn [fst] in H2.
  destruct (shr_m mrs2); [done| |lia]. by case_match.
Qed.

Lemma binary_normalize_nonneg (m e : Z) (szero : bool) :
  (0 <= m)%Z -> nonneg (binary_normalize prec emax m e szero) = true.
Proof.
  intros Hm. destruct m as [|p|p]; [done| |lia].
  unfold binary_normalize, binary_round.
  destruct (shl_align p e _) as [mz ez]. by apply binary_round_aux_nonneg.
Qed.

Lemma SFadd_nonneg (x y : spec_float) :
  nonneg x = true -> nonneg y = true ->
  nonneg (SFadd prec emax x y) = true.
Proof.
  destruct x as [sx|[]| |[] mx ex], y as [sy|[]| |[] my ey]; try done.
  - intros _ _. by destruct sx, sy.
  - intros _ _. cbn [SFadd]. apply binary_normalize_nonneg. cbn. lia.
Qed.

Lemma SFmul_nonneg (x : spec_float) (m : positive) (e : Z) :
  nonneg x = true ->
  nonneg (SFmul prec emax x (S754_finite false m e)) = true.
Proof.
  destruct x as [sx|[]| |[] mx ex]; try done.
  intros _. cbn [SFmul xorb]. by apply binary_round_aux_nonneg.
Qed.

Lemma bounded_digits (m : positive) (e : Z) :
  bounded prec emax m e = true ->
  (-1074 <= e)%Z
  /\ (Zpos (digits2_pos m) <= 53)%Z
  /\ ((-1074 < e)%Z -> Zpos (digits2_pos m) = 53%Z).
Proof.
  unfold bounded, canonical_mantissa, fexp, emin, prec, emax.
  intros [H _]%andb_true_iff. apply Z.eqb_eq in H. lia.
Qed.

(** Where the test [balance < amount] lets a withdrawal through, the
    difference is not below zero. *)
Lemma SFsub_nonneg (x : spec_float) (my : positive) (ey : Z) :
  nonneg x = true ->
  valid_binary x = true ->
  valid_binary (S754_finite false my ey) = true ->
  SFltb x (S754_finite false my ey) = false ->
  nonneg (SFsub prec emax x (S754_finite false my ey)) = true.
Proof.
  destruct x as [sx|[]| |[] mx ex]; try done.
  intros _ Hx Hy Hlt. unfold valid_binary in Hx, Hy.
  cbn [SpecFloat.valid_binary] in Hx, Hy.
  cbn [SFsub]. apply binary_normalize_nonneg. cbn [cond_Zopp].
  destruct (bounded_digits mx ex Hx) as (Hx1 & Hx2 & Hx3).
  destruct (bounded_digits my ey Hy) as (Hy1 & Hy2 & Hy3).
  unfold SFltb, SFcompare in Hlt.
  destruct (Z.compare_spec ex ey) as [->|Hlt'|Hgt]; [| done |].
  - rewrite Z.min_id, !shl_align_up by lia. cbn [fst].
    change (Pos.compare_cont Eq mx my) with (Pos.compare mx my) in Hlt.
    destruct (Pos.compare_spec mx my); try done; lia.
  - rewrite Z.min_r by lia.
    rewrite (shl_align_up my ey ey) by lia.
    rewrite (shl_align_down mx ex ey) by lia. cbn [fst].
    rewrite Zpos_shl, Z2Nat.id by lia.
    pose proof (digits_bounds mx) as Hdx. pose proof (digits_bounds my) as Hdy.
    rewrite (Hx3 ltac:(lia)) in Hdx.
    assert (Zpos my < 2 ^ 53)%Z.
    { eapply Z.lt_le_trans; [apply Hdy|]. apply Z.pow_le_mono_r; lia. }
    assert (2 ^ 1 <= 2 ^ (ex - ey))%Z by (apply Z.pow_le_mono_r; lia).
    change (2 ^ (53 - 1))%Z with 4503599627370496%Z in Hdx.
    change (2 ^ 53)%Z with 9007199254740992%Z in *.
    change (2 ^ 1)%Z with 2%Z in *. nia.
Qed.

Lemma positive_nonneg (a : float) :
  (0 <? a)%float = true -> nonneg (Prim2SF a) = true.
Proof. intros H. rewrite <- leb_zero_nonneg. by apply ltb_leb. Qed.

Lemma add_nonneg (b a : float) :
  (0 <=? b)%float = true -> (0 <=? a)%float = true ->
  (0 <=? b + a)%float = true.
Proof.
  rewrite !leb_zero_nonneg, add_spec. apply SFadd_nonneg.
Qed.

Lemma mul_nonneg (b t : float) :
  (0 <=? b)%float = true ->
  (0 <? t)%float = true -> (t <? infinity)%float = true ->
  (0 <=? b * t)%float = true.
Proof.
  intros Hb H0 Hinf. destruct (positive_finite t H0 Hinf) as (m & e & Ht).
  rewrite leb_zero_nonneg in *. rewrite mul_spec, Ht. by apply SFmul_nonneg.
Qed.

Lemma sub_nonneg (b a : float) :
  (0 <=? b)%float = true ->
  (0 <? a)%float = true -> (a <? infinity)%float = true ->
  (b <? a)%float = false ->
  (0 <=? b - a)%float = true.
Proof.
  intros Hb H0 Hinf Hlt. destruct (positive_finite a H0 Hinf) as (m & e & Ha).
  rewrite leb_zero_nonneg in *. rewrite ltb_spec in Hlt.
  pose proof (Prim2SF_valid b) as Hvb. pose proof (Prim2SF_valid a) as Hva.
  rewrite sub_spec. rewrite Ha in *. by apply SFsub_nonneg.
Qed.

Lemma locked_result_non_negative {R : Type} (s s' : Servicer) (id : string)
    (missing : R) (found : string -> float -> outcome R * gmap string hash)
    (o : outcome R) :
  locked_result s id missing found = Some (o, s') ->
  (forall ty b,
      (found ty b).2 = redis_client s
      \/ exists x,
           (found ty b).2 = redis_hset (key id) (balance_is x) (redis_client s)
           /\ ((0 <=? b)%float = true -> (0 <=? x)%float = true)) ->
  non_negative s -> non_negative s'.
Proof.
  intros Hrun Hfound Hinv id' ty' b' Hs'. unfold locked_result in Hrun.
  case_decide; [discriminate Hrun|].
  destruct (stored s id) as [[ty|] [b|]] eqn:Hs; simplify_eq/=;
    rewrite stored_released in Hs'; try by apply (Hinv id' ty' b').
  destruct (Hfound ty b) as [Hdb|(x & Hdb & Hx)]; rewrite Hdb in Hs'.
  { by apply (Hinv id' ty' b'). }
  destruct (decide (id = id')) as [<-|Hne].
  - rewrite hgetall_hset_eq in Hs'. fold (stored s id) in Hs'.
    rewrite Hs in Hs'. injection Hs' as _ <-. apply Hx. by apply (Hinv id ty b).
  - rewrite hgetall_hset_ne in Hs' by (intros Hk; by apply key_inj in Hk).
    by apply (Hinv id' ty' b').
Qed.

(** A call with a numeric amount or rate keeps every balance at or above
    zero. *)
Lemma handle_non_negative (rq : request) (context : ServicerContext)
    (s s' : Servicer) (o : outcome (ServicerContext * response)) :
  numeric rq = true ->
  run (handle rq context) s = Some (o, s') ->
  non_negative s -> non_negative s'.
Proof.
  intros Hnum Hrun Hinv. rewrite run_handle in Hrun.
  destruct rq as [[id ty]|[id ty]|[id amount]|[id amount]|[id rate]];
    apply relabel_Some in Hrun as (o0 & Hrun & _);
    cbn [numeric DepositRequest.amount WithdrawRequest.amount
         InterestRequest.annual_interest_rate] in Hnum.
  - rewrite run_CreateAccount in Hrun.
    cbn [AccountRequest.account_id AccountRequest.account_type] in Hrun.
    repeat case_match; simplify_eq; try done.
    intros id' ty' b' Hs'. destruct (decide (id = id')) as [<-|Hne].
    + rewrite stored_hmset_new in Hs'. by injection Hs' as _ <-.
    + apply (Hinv id' ty' b'). rewrite <- Hs'. unfold stored, redis_hmset.
      cbn [redis_client]. unfold redis_hgetall.
      rewrite lookup_insert_ne; [done|]. intros Hk. by apply key_inj in Hk.
  - rewrite run_GetBalance in Hrun. by simplify_eq.
  - rewrite run_Deposit in Hrun.
    destruct (amount <=? 0)%float eqn:Hle; [by simplify_eq|].
    cbn [orb] in Hnum.
    apply (locked_result_non_negative _ _ _ _ _ _ Hrun); [|done].
    intros ty b. right. exists (b + amount)%float. split; [done|].
    intros Hb. apply add_nonneg; [done|]. by apply ltb_leb.
  - rewrite run_Withdraw in Hrun.
    destruct (amount <=? 0)%float eqn:Hle; [by simplify_eq|].
    cbn [orb] in Hnum. apply andb_true_iff in Hnum as [H0 Hinf].
    apply (locked_result_non_negative _ _ _ _ _ _ Hrun); [|done].
    intros ty b. destruct (b <? amount)%float eqn:Hlt; [by left|].
    right. exists (b - amount)%float. split; [done|].
    intros Hb. by apply sub_nonneg.
  - rewrite run_CalculateInterest in Hrun.
    destruct (rate <=? 0)%float eqn:Hle; [by simplify_eq|].
    cbn [orb] in Hnum. apply andb_true_iff in Hnum as [H0 Hinf].
    apply (locked_result_non_negative _ _ _ _ _ _ Hrun); [|done].
    intros ty b. right. exists (b + b * (rate / 100))%float. split; [done|].
    intros Hb. apply add_nonneg; [done|]. by apply mul_nonneg.
Qed.

(** X15. Non-negativity of the balances, for numeric arguments: when the
    amount of every deposit is a number (not NaN), the amount of every
    withdrawal is a finite number and the hundredth of every accepted rate
    is positive and finite, calls served one after the other, of any
    operations on any accounts, leave no balance that is NaN or below zero
    if there was none before. *)
Theorem numeric_calls_keep_balances_non_negative (rqs : list request)
    (s s' : Servicer) (os : list (outcome (ServicerContext * response))) :
  Forall (fun rq => numeric rq = true) rqs ->
  serve_all rqs s = Some (os, s') ->
  non_negative s ->
  non_negative s'.
Proof.
  revert s os. induction rqs as [|rq rqs IH]; intros s os Hnum Hserve Hinv.
  - cbn in Hserve. by simplify_eq.
  - apply Forall_cons in Hnum as [Hrq Hnum]. cbn [serve_all] in Hserve.
    destruct (run (handle rq new_context) s) as [[o s1]|] eqn:Hrun; [|done].
    destruct (serve_all rqs s1) as [[os1 s2]|] eqn:Hrest; [|done].
    simplify_eq.
    apply (IH s1 os1 Hnum Hrest).
    by apply (handle_non_negative rq new_context s s1 o).
Qed.

(** The example session of client.py, on a servicer started on an empty
    store. *)
Lemma numeric_calls_keep_balances_non_negative_witness :
  exists os s',
    serve_all [CreateAccountCall (AccountRequest.mk "123" "savings");
               DepositCall (DepositRequest.mk "123" 1000);
               GetBalanceCall (AccountRequest.mk "123" EmptyString);
               WithdrawCall (WithdrawRequest.mk "123" 500);
               CalculateInterestCall (InterestRequest.mk "123" 2.5)] (init ∅)
    = Some (os, s')
    /\ non_negative s'.
Proof.
  destruct (serve_all
              [CreateAccountCall (AccountRequest.mk "123" "savings");
               DepositCall (DepositRequest.mk "123" 1000);
               GetBalanceCall (AccountRequest.mk "123" EmptyString);
               WithdrawCall (WithdrawRequest.mk "123" 500);
               CalculateInterestCall (InterestRequest.mk "123" 2.5)] (init ∅))
    as [[os s']|] eqn:Hserve; [|vm_compute in Hserve; discriminate Hserve].
  exists os, s'. split; [reflexivity|].
  apply (numeric_calls_keep_balances_non_negative
           [CreateAccountCall (AccountRequest.mk "123" "savings");
            DepositCall (DepositRequest.mk "123" 1000);
            GetBalanceCall (AccountRequest.mk "123" EmptyString);
            WithdrawCall (WithdrawRequest.mk "123" 500);
            CalculateInterestCall (InterestRequest.mk "123" 2.5)]
           (init ∅) s' os).
  - by repeat constructor.
  - exact Hserve.
  - intros id ty b Hs. unfold stored, redis_hgetall in Hs. cbn in Hs.
    rewrite lookup_empty in Hs. discriminate Hs.
Defined.
